(** * Route resolution and sidebar coordination of the notebook
      application extension

    A shallow embedding of [packages/application-extension/src/index.ts]:
    the two route patterns, the opener command, the tree resolver, the tree
    path updater and the sidebar visibility plugin, with the properties the
    specification states about them.

    Conventions.  A JavaScript string is a [string] (a list of [ascii]
    characters).  A JavaScript object used as a dictionary is a [gmap].  A
    closure that mutates captured variables becomes a function on an explicit
    state record; a call whose only observable effect is on a collaborator
    (history, menu, palette, document manager) is recorded in that
    collaborator's state.  A promise is the state it has once the event loop
    is quiescent. *)

From Stdlib Require Import String Ascii List Bool Arith Lia.
From stdpp Require Import base option list gmap strings.
Import ListNotations.
Open Scope string_scope.
Open Scope list_scope.

(** ** Platform functions

    Functions of the JavaScript platform and of [@jupyterlab/coreutils] that
    the source calls and whose results it only passes on.  They are left
    abstract; a theorem that needs a fact about one of them says so. *)

Class Platform := {
  (** [decodeURIComponent]: [None] stands for a thrown [URIError]. *)
  decodeURIComponent : string -> option string;
  (** [PathExt.extname]. *)
  extname : string -> string;
  (** [URLExt.join]. *)
  URLExt_join : list string -> string;
  (** [URLExt.encodeParts]. *)
  URLExt_encodeParts : string -> string
}.

(** ** Regular expressions

    The fragment of JavaScript regular expressions the two patterns use,
    with the backtracking semantics of [String.prototype.match] for a
    pattern without flags: the leftmost start position that matches wins,
    alternatives are tried left to right and quantifiers are greedy. *)

Module RegExp.

Inductive regex : Type :=
| Eps
| Chr (c : ascii)
| Any
| Seq (r1 r2 : regex)
| Alt (r1 r2 : regex)
| Opt (r : regex)
| Star (r : regex)
| Group (n : nat) (r : regex).

(** A run of literal characters. *)
Fixpoint Lit (s : string) : regex :=
  match s with
  | EmptyString => Eps
  | String c s' => Seq (Chr c) (Lit s')
  end.

(** [.] matches every character but a line terminator (LF and CR are the
    ones an [ascii] string can hold). *)
Definition isLineTerminator (c : ascii) : bool :=
  (Ascii.eqb c "010" || Ascii.eqb c "013")%char.

Fixpoint prefix (n : nat) (s : string) : string :=
  match n, s with
  | S n', String c s' => String c (prefix n' s')
  | _, _ => EmptyString
  end.

(** The text matched between input [s] and the remaining input [rest]. *)
Definition consumed (s rest : string) : string :=
  prefix (String.length s - String.length rest) s.

Definition captures := gmap nat string.

(** [m r s c]: every way [r] matches a prefix of [s], as the remaining input
    and the captures, in the order the backtracking matcher tries them.  An
    iteration of [Star] that consumes nothing is rejected, as in JavaScript. *)
Fixpoint m (r : regex) (s : string) (c : captures) : list (string * captures) :=
  match r with
  | Eps => [(s, c)]
  | Chr a =>
      match s with
      | String b s' => if Ascii.eqb a b then [(s', c)] else []
      | EmptyString => []
      end
  | Any =>
      match s with
      | String b s' => if isLineTerminator b then [] else [(s', c)]
      | EmptyString => []
      end
  | Seq r1 r2 => flat_map (fun x => m r2 (fst x) (snd x)) (m r1 s c)
  | Alt r1 r2 => m r1 s c ++ m r2 s c
  | Opt r1 => m r1 s c ++ [(s, c)]
  | Star r1 =>
      (fix star (fuel : nat) (s : string) (c : captures) {struct fuel}
         : list (string * captures) :=
         match fuel with
         | O => [(s, c)]
         | S fuel' =>
             flat_map
               (fun x =>
                  if Nat.ltb (String.length (fst x)) (String.length s)
                  then star fuel' (fst x) (snd x) else [])
               (m r1 s c) ++ [(s, c)]
         end) (String.length s) s c
  | Group n r1 =>
      map (fun x => (fst x, <[n := consumed s (fst x)]> (snd x))) (m r1 s c)
  end.

(** The array [s.match(r)] returns: element 0 and the numbered groups. *)
Record MatchResult := { whole : string; groups : captures }.

(** [s.match(r)]: [None] is JavaScript's [null]. *)
Fixpoint exec (r : regex) (s : string) : option MatchResult :=
  match m r s ∅ with
  | (rest, c) :: _ => Some {| whole := consumed s rest; groups := c |}
  | [] =>
      match s with
      | EmptyString => None
      | String _ s' => exec r s'
      end
  end.

Definition test (r : regex) (s : string) : bool :=
  match exec r s with Some _ => true | None => false end.

(** [matches[n]] after [s.match(r) ?? []]: [None] is [undefined]. *)
Definition group (n : nat) (o : option MatchResult) : option string :=
  match o with
  | Some r => groups r !! n
  | None => None
  end.

End RegExp.
Import RegExp.

(** [TREE_PATTERN]: a slash, group 1 [notebooks|edit], a slash, and group 2,
    any run of characters (dot, starred); no anchors, no flags. *)
Definition TREE_PATTERN : regex :=
  Seq (Chr "/")
    (Seq (Group 1 (Alt (Lit "notebooks") (Lit "edit")))
       (Seq (Chr "/") (Group 2 (Star Any)))).

(** [treePattern] of the tree resolver: a slash, then optionally group 1,
    [/tree/] followed by any run of characters (dot, starred); no anchors,
    no flags. *)
Definition treePattern : regex :=
  Seq (Chr "/") (Opt (Group 1 (Seq (Lit "/tree/") (Star Any)))).

(** Does the string hold the character? *)
Fixpoint contains (a : ascii) (s : string) : bool :=
  match s with
  | EmptyString => false
  | String b s' => Ascii.eqb a b || contains a s'
  end.

(** ** Promises, locations, page configuration *)

(** The state of a promise once the event loop is quiescent. *)
Inductive PromiseState (A : Type) : Type :=
| Pending
| Fulfilled (v : A)
| Rejected.
Arguments Pending {A}.
Arguments Fulfilled {A} v.
Arguments Rejected {A}.

(** [IRouter.ILocation]; [search] is optional. *)
Record ILocation := {
  hash : string;
  path : string;
  request : string;
  search : option string
}.

(** [PageConfig]: the process-wide key/value store (section 5 of the
    specification); an option that was never set reads as the empty string. *)
Module PageConfig.

Definition getOption (name : string) (pc : gmap string string) : string :=
  default "" (pc !! name).

Definition setOption (name value : string) (pc : gmap string string)
  : gmap string string :=
  <[name := value]> pc.

End PageConfig.

Module URLExt.

(** [s.split(sep)] for a one-character separator. *)
Fixpoint split (sep : ascii) (s : string) : list string :=
  match s with
  | EmptyString => [EmptyString]
  | String c s' =>
      if Ascii.eqb c sep then EmptyString :: split sep s'
      else match split sep s' with
           | h :: t => String c h :: t
           | [] => [String c EmptyString]
           end
  end.

(** [value.replace(/^\?/, '')] *)
Definition stripQuestionMark (value : string) : string :=
  match value with
  | String "?"%char rest => rest
  | _ => value
  end.

(** [URLExt.queryStringToObject]: the leading question mark is dropped, the
    rest is split at [&], each part at [=]; a part with a non-empty key binds
    the key to its decoded value (the empty string when there is none).
    [None] when [decodeURIComponent] throws. *)
Definition queryStringToObject `{Platform} (value : string)
  : option (gmap string string) :=
  foldl
    (fun acc val =>
       match acc with
       | None => None
       | Some acc =>
           let parts := split "=" val in
           let key := default "" (parts !! 0) in
           let value := default "" (parts !! 1) in
           if Nat.ltb 0 (String.length key)
           then match decodeURIComponent value with
                | Some v => Some (<[key := v]> acc)
                | None => None
                end
           else Some acc
       end)
    (Some ∅)
    (split "&" (stripQuestionMark value)).

End URLExt.

(** ** The opener plugin *)

Module Opener.

Definition NOTEBOOK_FACTORY : string := "Notebook".
Definition EDITOR_FACTORY : string := "Editor".

(** The collaborators of the command: the optional setting registry, as the
    outcome of its [load] promise, with the plugins it was asked to load, and
    the document manager, as the [(file, factory)] pairs it was asked to
    open. *)
Record World := {
  settingRegistry : option (PromiseState unit);
  loaded : list string;
  opened : list (string * string)
}.

Definition docManager_open (file factory : string) (w : World) : World :=
  {| settingRegistry := settingRegistry w;
     loaded := loaded w;
     opened := opened w ++ [(file, factory)] |}.

Definition settingRegistry_load (plugin : string) (w : World) : World :=
  {| settingRegistry := settingRegistry w;
     loaded := loaded w ++ [plugin];
     opened := opened w |}.

(** A promise under construction: the world and the promise's own state. *)
Definition Cell : Type := World * PromiseState unit.

Definition settle (v : PromiseState unit) (x : Cell) : Cell :=
  match snd x with
  | Pending => (fst x, v)
  | _ => x
  end.

(** [new Promise(executor)]: the executor receives the two functions that
    settle the promise, and nothing else can settle it. *)
Definition Promise_new (executor : (Cell -> Cell) -> (Cell -> Cell) -> Cell -> Cell)
    (w : World) : Cell :=
  executor (settle (Fulfilled tt)) (settle Rejected) (w, Pending).

(** The executor of the source, [async () => { ... }]: it declares no
    parameter, so both settling functions are dropped.  An [await] on a load
    that does not fulfil ends the executor's own (discarded) promise before
    the document is opened. *)
Definition executor (ext file : string) : (Cell -> Cell) -> (Cell -> Cell) -> Cell -> Cell :=
  fun _ _ x =>
    let w := fst x in
    (if String.eqb ext ".ipynb"
     then match settingRegistry w with
          | None => docManager_open file NOTEBOOK_FACTORY w
          | Some outcome =>
              let w1 := settingRegistry_load "@jupyterlab/notebook-extension:panel" w in
              match outcome with
              | Fulfilled _ => docManager_open file NOTEBOOK_FACTORY w1
              | _ => w1
              end
          end
     else docManager_open file EDITOR_FACTORY w,
     snd x).

(** [await p; return]: the state of the promise of the enclosing async
    function. *)
Definition await_then_return (p : PromiseState unit) : PromiseState unit :=
  match p with
  | Fulfilled _ => Fulfilled tt
  | Rejected => Rejected
  | Pending => Pending
  end.

(** The [execute] of command ['router:tree']: the world afterwards and the
    promise it returns. *)
Definition execute `{Platform} (args : ILocation) (w : World)
  : World * PromiseState unit :=
  let matches := exec TREE_PATTERN (path args) in
  match group 2 matches with
  | None => (w, Fulfilled tt)
  | Some EmptyString => (w, Fulfilled tt)
  | Some path =>
      match decodeURIComponent path with
      | None => (w, Rejected)
      | Some file =>
          let ext := extname file in
          let x := Promise_new (executor ext file) w in
          (fst x, await_then_return (snd x))
      end
  end.

End Opener.

(** ** The tree resolver plugin *)

Module TreeResolver.

(** [JupyterFrontEnd.ITreeResolver.Paths]; JavaScript's [null] is [None]. *)
Record Paths := { browser : string; file : string }.

(** What [activate] allocates: the disposable set with its three members
    (the command, the route rule, the disconnection of the listener) and the
    promise delegate.  [resolveCalls] counts the calls of [delegate.resolve],
    [disposals] the calls of [set.dispose] that found the set alive. *)
Record State := {
  isDisposed : bool;
  commandAdded : bool;
  ruleRegistered : bool;
  listenerConnected : bool;
  promise : PromiseState (option Paths);
  resolveCalls : nat;
  disposals : nat
}.

Definition activate : State :=
  {| isDisposed := false;
     commandAdded := true;
     ruleRegistered := true;
     listenerConnected := true;
     promise := Pending;
     resolveCalls := 0;
     disposals := 0 |}.

(** [set.dispose()]: a second call does nothing. *)
Definition set_dispose (st : State) : State :=
  if isDisposed st then st
  else {| isDisposed := true;
          commandAdded := false;
          ruleRegistered := false;
          listenerConnected := false;
          promise := promise st;
          resolveCalls := resolveCalls st;
          disposals := S (disposals st) |}.

(** [delegate.resolve(value)]: a settled promise keeps its value. *)
Definition delegate_resolve (value : option Paths) (st : State) : State :=
  {| isDisposed := isDisposed st;
     commandAdded := commandAdded st;
     ruleRegistered := ruleRegistered st;
     listenerConnected := listenerConnected st;
     promise := match promise st with
                | Pending => Fulfilled value
                | p => p
                end;
     resolveCalls := S (resolveCalls st);
     disposals := disposals st |}.

(** The [execute] of [CommandIDs.resolveTree].  When the query string does
    not parse the async function rejects before it touches the set. *)
Definition execute `{Platform} (pc : gmap string string) (args : ILocation)
    (st : State) : State :=
  if isDisposed st then st
  else
    match URLExt.queryStringToObject (default "" (search args)) with
    | None => st
    | Some query =>
        let browser := default "" (query !! "file-browser-path") in
        let query := delete "file-browser-path" query in
        let st := set_dispose st in
        delegate_resolve
          (Some {| browser := browser;
                   file := PageConfig.getOption "treePath" pc |}) st
    end.

(** The listener connected to [router.routed]. *)
Definition listener (st : State) : State :=
  if isDisposed st then st
  else delegate_resolve None (set_dispose st).

(** The two entry points through which an event reaches the resolver. *)
Inductive Event :=
| Execute (args : ILocation)
| Routed.

Definition deliver `{Platform} (pc : gmap string string) (ev : Event)
    (st : State) : State :=
  match ev with
  | Execute args => execute pc args st
  | Routed => listener st
  end.

Definition run `{Platform} (pc : gmap string string) (evs : list Event)
    (st : State) : State :=
  foldl (fun st ev => deliver pc ev st) st evs.

(** An event that acts on a live resolver: a routed notification, or an
    execution whose query string parses. *)
Definition effective `{Platform} (ev : Event) : bool :=
  match ev with
  | Execute args =>
      match URLExt.queryStringToObject (default "" (search args)) with
      | Some _ => true
      | None => false
      end
  | Routed => true
  end.

(** The value an effective event fulfils the promise with. *)
Definition outcome `{Platform} (pc : gmap string string) (ev : Event)
  : option Paths :=
  match ev with
  | Execute args =>
      match URLExt.queryStringToObject (default "" (search args)) with
      | Some query =>
          Some {| browser := default "" (query !! "file-browser-path");
                  file := PageConfig.getOption "treePath" pc |}
      | None => None
      end
  | Routed => None
  end.

End TreeResolver.

(** ** The router and the application around it *)

Module CommandIDs.
Definition togglePanel : string := "application:toggle-panel".
Definition resolveTree : string := "application:resolve-tree".
Definition routerTree : string := "router:tree".
End CommandIDs.

Module Router.

(** What [router.register] takes. *)
Record Rule := { command : string; pattern : regex }.

(** The opener's registration and the tree resolver's. *)
Definition openerRule : Rule :=
  {| command := CommandIDs.routerTree; pattern := TREE_PATTERN |}.
Definition treeRule : Rule :=
  {| command := CommandIDs.resolveTree; pattern := treePattern |}.

(** The running application as far as routing sees it: the browser (current
    location, paths pushed on its history), the page configuration with the
    log of its writes, the rules in registration order, and the two plugins
    that registered them. *)
Record App := {
  location : ILocation;
  history : list string;
  pageConfig : gmap string string;
  configWrites : list (string * string);
  rules : list Rule;
  opener : Opener.World;
  resolver : TreeResolver.State
}.

(** The application once the opener and the tree resolver are activated;
    which of the two registers first depends on the plugin order. *)
Definition start (treeFirst : bool) (loc : ILocation)
    (pc : gmap string string) (settings : option (PromiseState unit)) : App :=
  {| location := loc;
     history := [];
     pageConfig := pc;
     configWrites := [];
     rules := if treeFirst then [treeRule; openerRule] else [openerRule; treeRule];
     opener := {| Opener.settingRegistry := settings;
                  Opener.loaded := [];
                  Opener.opened := [] |};
     resolver := TreeResolver.activate |}.

Definition with_resolver (st : TreeResolver.State) (app : App) : App :=
  {| location := location app;
     history := history app;
     pageConfig := pageConfig app;
     configWrites := configWrites app;
     rules := rules app;
     opener := opener app;
     resolver := st |}.

Definition with_opener (w : Opener.World) (app : App) : App :=
  {| location := location app;
     history := history app;
     pageConfig := pageConfig app;
     configWrites := configWrites app;
     rules := rules app;
     opener := w;
     resolver := resolver app |}.

(** [commands.execute(id, args)]: a command that is not registered (any
    more) fails without effect. *)
Definition commands_execute `{Platform} (id : string) (args : ILocation)
    (app : App) : App :=
  if String.eqb id CommandIDs.routerTree
  then with_opener (fst (Opener.execute args (opener app))) app
  else if String.eqb id CommandIDs.resolveTree
  then if TreeResolver.commandAdded (resolver app)
       then with_resolver
              (TreeResolver.execute (pageConfig app) args (resolver app)) app
       else app
  else app.

(** The rules still registered: disposing the resolver's set withdraws its
    rule. *)
Definition registered (app : App) : list Rule :=
  List.filter
    (fun r =>
       if String.eqb (command r) CommandIDs.resolveTree
       then TreeResolver.ruleRegistered (resolver app)
       else true)
    (rules app).

(** The [routed] signal, to which only the resolver's listener connects. *)
Definition routed_emit (app : App) : App :=
  if TreeResolver.listenerConnected (resolver app)
  then with_resolver (TreeResolver.listener (resolver app)) app
  else app.

(** Modelled from the spec: [Router.route] of [@jupyterlab/application],
    which is not under src/.  Section 4.1: it "evaluates the current browser
    path against all registered patterns in registration order, executes the
    first match's bound action with {path, search}, and fails silently (no
    match) otherwise, additionally emitting a routed notification to all
    subscribers regardless of match outcome". *)
Definition route `{Platform} (app : App) : App :=
  let current := location app in
  let matched :=
    List.find (fun r => test (pattern r) (path current)) (registered app) in
  routed_emit
    (match matched with
     | Some r => commands_execute (command r) current app
     | None => app
     end).

(** Modelled from the spec: [Router.navigate] of [@jupyterlab/application],
    which is not under src/.  Section 4.1: it "updates the browser's
    location/history; if skipRouting is false it subsequently triggers
    route(), otherwise it updates history state without dispatch". *)
Definition navigate `{Platform} (path : string) (skipRouting : bool)
    (app : App) : App :=
  let app :=
    {| location := {| hash := ""; path := path; request := path; search := None |};
       history := history app ++ [path];
       pageConfig := pageConfig app;
       configWrites := configWrites app;
       rules := rules app;
       opener := opener app;
       resolver := resolver app |} in
  if skipRouting then app else route app.

(** [PageConfig.setOption] on the application's store. *)
Definition PageConfig_setOption (name value : string) (app : App) : App :=
  {| location := location app;
     history := history app;
     pageConfig := PageConfig.setOption name value (pageConfig app);
     configWrites := configWrites app ++ [(name, value)];
     rules := rules app;
     opener := opener app;
     resolver := resolver app |}.

End Router.

(** ** The tree path updater plugin *)

Module TreePathUpdater.
Import Router.

(** [baseUrl || '/'] *)
Definition orSlash (s : string) : string :=
  if String.eqb s "" then "/" else s.

Definition updateTreePath `{Platform} (treePath : string) (app : App) : App :=
  if negb (String.eqb treePath (PageConfig.getOption "treePath" (pageConfig app)))
  then
    let path :=
      URLExt_join
        [orSlash (PageConfig.getOption "baseUrl" (pageConfig app));
         "tree";
         URLExt_encodeParts treePath] in
    let app := navigate path true app in
    PageConfig_setOption "treePath" treePath app
  else app.

End TreePathUpdater.

(** ** The sidebar visibility plugin *)

Module SideBar.

(** [SideBarPanel.Area], and the string that names it in command arguments. *)
Inductive Area := Left | Right.

Definition areaName (a : Area) : string :=
  match a with
  | Left => "left"
  | Right => "right"
  end.

Definition Area_eqb (a b : Area) : bool :=
  match a, b with
  | Left, Left | Right, Right => true
  | _, _ => false
  end.

(** A widget, as far as the plugin reads it: [widget.id] and
    [widget.title.caption]. *)
Record Widget := { w_id : string; w_caption : string }.

(** *** The shell *)

(** Modelled from the spec: the panel host of one side ([SideBarHandler] of
    [@jupyter-notebook/application], a package of this repository that is
    not under src/).  Section 3: per side, "collapsed: bool",
    "currentWidgetId: string | null" and an "ordered sequence of registered
    panel widgets (id, display title)"; a side "can be collapsed while
    remembering which widget was last active". *)
Record Panel := {
  collapsed : bool;
  currentWidget : option Widget;
  widgets : list Widget
}.

(** Modelled from the spec: [NotebookShell] of [@jupyter-notebook/application]
    (not under src/): the two panel hosts, the active main-area widget, and
    the ids passed to [activateById], in order. *)
Record NotebookShell := {
  leftHandler : Panel;
  rightHandler : Panel;
  shellCurrentWidget : option Widget;
  activated : list string
}.

Definition handler (a : Area) (sh : NotebookShell) : Panel :=
  match a with
  | Left => leftHandler sh
  | Right => rightHandler sh
  end.

Definition with_handler (a : Area) (p : Panel) (sh : NotebookShell) : NotebookShell :=
  match a with
  | Left =>
      {| leftHandler := p; rightHandler := rightHandler sh;
         shellCurrentWidget := shellCurrentWidget sh; activated := activated sh |}
  | Right =>
      {| leftHandler := leftHandler sh; rightHandler := p;
         shellCurrentWidget := shellCurrentWidget sh; activated := activated sh |}
  end.

(** Modelled from the spec: [expandLeft(id)] / [expandRight(id)] (not under
    src/).  Section 4.4: "expand and activate id"; the widget activated is
    the registered panel with that id. *)
Definition expand (a : Area) (id : string) (sh : NotebookShell) : NotebookShell :=
  let p := handler a sh in
  with_handler a
    {| collapsed := false;
       currentWidget :=
         match List.find (fun w => String.eqb (w_id w) id) (widgets p) with
         | Some w => Some w
         | None => currentWidget p
         end;
       widgets := widgets p |} sh.

(** Modelled from the spec: [collapseLeft()] / [collapseRight()] (not under
    src/).  Section 3: the side is collapsed and may remember its widget. *)
Definition collapse (a : Area) (sh : NotebookShell) : NotebookShell :=
  let p := handler a sh in
  with_handler a
    {| collapsed := true;
       currentWidget := currentWidget p;
       widgets := widgets p |} sh.

(** Modelled from the spec: [activateById(id)] (not under src/).  Section
    4.4: it "restores keyboard focus to the document"; the call is
    recorded. *)
Definition activateById (id : string) (sh : NotebookShell) : NotebookShell :=
  {| leftHandler := leftHandler sh; rightHandler := rightHandler sh;
     shellCurrentWidget := shellCurrentWidget sh;
     activated := activated sh ++ [id] |}.

(** Modelled from the spec: a panel host gaining or losing a widget (not
    under src/); section 3 has the registered widgets as an ordered
    sequence. *)
Definition addWidget (a : Area) (w : Widget) (sh : NotebookShell) : NotebookShell :=
  let p := handler a sh in
  with_handler a
    {| collapsed := collapsed p;
       currentWidget := currentWidget p;
       widgets := widgets p ++ [w] |} sh.

Definition removeWidget (a : Area) (w : Widget) (sh : NotebookShell) : NotebookShell :=
  let p := handler a sh in
  with_handler a
    {| collapsed := collapsed p;
       currentWidget := currentWidget p;
       widgets := List.filter (fun x => negb (String.eqb (w_id x) (w_id w))) (widgets p) |} sh.

(** The state the specification exposes for a side: visible iff not
    collapsed and some widget is current (section 3). *)
Inductive SideState :=
| Collapsed
| ExpandedWithWidget (id : string).

Definition sideState (a : Area) (sh : NotebookShell) : SideState :=
  let p := handler a sh in
  if collapsed p then Collapsed
  else match currentWidget p with
       | Some w => ExpandedWithWidget (w_id w)
       | None => Collapsed
       end.

(** *** The toggle command *)

(** The arguments of [CommandIDs.togglePanel]. *)
Record ToggleArgs := { arg_side : string; arg_title : string; arg_id : string }.

(** [currentWidget?.id !== args.id] *)
Definition idDiffers (current : option Widget) (id : string) : bool :=
  match current with
  | Some w => negb (String.eqb (w_id w) id)
  | None => true
  end.

Definition togglePanel_side (a : Area) (args : ToggleArgs) (sh : NotebookShell)
  : NotebookShell :=
  if collapsed (handler a sh) then expand a (arg_id args) sh
  else if idDiffers (currentWidget (handler a sh)) (arg_id args)
  then expand a (arg_id args) sh
  else
    let sh := collapse a sh in
    match shellCurrentWidget sh with
    | Some w => activateById (w_id w) sh
    | None => sh
    end.

(** The [execute] of [CommandIDs.togglePanel]: the [switch] on
    [args.side] has the two cases and no default. *)
Definition togglePanel_execute (args : ToggleArgs) (sh : NotebookShell)
  : NotebookShell :=
  if String.eqb (arg_side args) "left" then togglePanel_side Left args sh
  else if String.eqb (arg_side args) "right" then togglePanel_side Right args sh
  else sh.

(** *** Menus *)

Record MenuItem := { item_command : string; item_args : ToggleArgs }.
Record Menu := { label : string; items : list MenuItem }.

(** An entry of the View menu: a submenu, or an item of another plugin. *)
Inductive ViewItem :=
| Submenu (submenu : Menu)
| Foreign (tag : string).

(** [menu.viewMenu]: its entries, each under the handle its [addItem]
    returned, and the next handle. *)
Record RankedMenu := { entries : list (nat * ViewItem); nextHandle : nat }.

(** [viewMenu.addItem(options)]: the disposable returned, and the menu. *)
Definition addItem (e : ViewItem) (vm : RankedMenu) : nat * RankedMenu :=
  (nextHandle vm,
   {| entries := entries vm ++ [(nextHandle vm, e)];
      nextHandle := S (nextHandle vm) |}).

(** [handle.dispose()]: the entry leaves the menu; disposing again does
    nothing. *)
Definition dispose (h : nat) (vm : RankedMenu) : RankedMenu :=
  {| entries := List.filter (fun x => negb (Nat.eqb (fst x) h)) (entries vm);
     nextHandle := nextHandle vm |}.

(** [getSidebarLabel]; the translation is the identity. *)
Definition getSidebarLabel (a : Area) : string :=
  match a with
  | Left => "Left Sidebar"
  | Right => "Right Sidebar"
  end.

(** *** The command palette *)

(** Modelled from the spec: class [SideBarPalette] of [./sidebarpalette], a
    file of this package that is not under src/.  Section 4.4: "panel add
    appends an entry, panel remove removes the matching entry; entries are
    keyed by (widgetId, side) pairs, and removal must target exactly the
    entry matching both fields".  The object keeps the command it was built
    with; its entries live in the command palette. *)
Record SideBarPalette := { sbp_command : string }.

Definition PaletteEntry : Type := string * Area.

Definition SideBarPalette_addItem (w : Widget) (a : Area)
    (entries : list PaletteEntry) : list PaletteEntry :=
  entries ++ [(w_id w, a)].

Definition SideBarPalette_removeItem (w : Widget) (a : Area)
    (entries : list PaletteEntry) : list PaletteEntry :=
  List.filter
    (fun e => negb (String.eqb (fst e) (w_id w) && Area_eqb (snd e) a))
    entries.

(** *** The plugin *)

(** The plugin's world: the shell, the optional main menu (its View menu)
    and command palette (its sidebar entries), and the variables [activate]
    declares: [sideBarMenu], [sideBarPalette], and whether the callback on
    [app.restored] has run. *)
Record World := {
  shell : NotebookShell;
  menu : option RankedMenu;
  palette : option (list PaletteEntry);
  sideBarMenu_left : option nat;
  sideBarMenu_right : option nat;
  sideBarPalette : option SideBarPalette;
  restored : bool
}.

Definition sideBarMenu (a : Area) (w : World) : option nat :=
  match a with
  | Left => sideBarMenu_left w
  | Right => sideBarMenu_right w
  end.

Definition activate (sh : NotebookShell) (menu : option RankedMenu)
    (palette : option (list PaletteEntry)) : World :=
  {| shell := sh; menu := menu; palette := palette;
     sideBarMenu_left := None; sideBarMenu_right := None;
     sideBarPalette := None;
     restored := false |}.

Definition with_shell (sh : NotebookShell) (w : World) : World :=
  {| shell := sh; menu := menu w; palette := palette w;
     sideBarMenu_left := sideBarMenu_left w;
     sideBarMenu_right := sideBarMenu_right w;
     sideBarPalette := sideBarPalette w; restored := restored w |}.

Definition with_menu (vm : RankedMenu) (w : World) : World :=
  {| shell := shell w; menu := Some vm; palette := palette w;
     sideBarMenu_left := sideBarMenu_left w;
     sideBarMenu_right := sideBarMenu_right w;
     sideBarPalette := sideBarPalette w; restored := restored w |}.

Definition with_palette (p : option (list PaletteEntry)) (w : World) : World :=
  {| shell := shell w; menu := menu w; palette := p;
     sideBarMenu_left := sideBarMenu_left w;
     sideBarMenu_right := sideBarMenu_right w;
     sideBarPalette := sideBarPalette w; restored := restored w |}.

(** [sideBarMenu[area] = handle] *)
Definition with_sideBarMenu (a : Area) (h : nat) (w : World) : World :=
  match a with
  | Left =>
      {| shell := shell w; menu := menu w; palette := palette w;
         sideBarMenu_left := Some h;
         sideBarMenu_right := sideBarMenu_right w;
         sideBarPalette := sideBarPalette w; restored := restored w |}
  | Right =>
      {| shell := shell w; menu := menu w; palette := palette w;
         sideBarMenu_left := sideBarMenu_left w;
         sideBarMenu_right := Some h;
         sideBarPalette := sideBarPalette w; restored := restored w |}
  end.

(** The loop of [updateMenu]: one item per widget, and the flag
    [menuToAdd]. *)
Definition populate (a : Area) (newMenu : Menu) (ws : list Widget) : Menu * bool :=
  foldl
    (fun acc widget =>
       ({| label := label (fst acc);
           items := items (fst acc) ++
             [{| item_command := CommandIDs.togglePanel;
                 item_args := {| arg_side := areaName a;
                                 arg_title := "Show " ++ w_caption widget;
                                 arg_id := w_id widget |} |}] |},
        true))
    (newMenu, false) ws.

Definition updateMenu (a : Area) (entryLabel : string) (w : World) : World :=
  match menu w with
  | None => w
  | Some vm =>
      let vm :=
        match sideBarMenu a w with
        | Some h => dispose h vm
        | None => vm
        end in
      let newMenu := {| label := entryLabel; items := [] |} in
      let ws := widgets (handler a (shell w)) in
      let '(newMenu, menuToAdd) := populate a newMenu ws in
      if menuToAdd
      then
        let '(h, vm) := addItem (Submenu newMenu) vm in
        with_sideBarMenu a h (with_menu vm w)
      else with_menu vm w
  end.

Inductive Action := add | remove.

Definition sidebarUpdated (a : Area) (widget : Widget) (action : Action)
    (w : World) : World :=
  let w :=
    match menu w with
    | Some _ => updateMenu a (getSidebarLabel a) w
    | None => w
    end in
  match sideBarPalette w with
  | Some _ =>
      match action with
      | add => with_palette (SideBarPalette_addItem widget a <$> palette w) w
      | remove => with_palette (SideBarPalette_removeItem widget a <$> palette w) w
      end
  | None => w
  end.

(** The callback on [app.restored].  The palette object is bound to a
    constant of the callback's own block, also named [sideBarPalette]; the
    variable of [activate] is not assigned. *)
Definition onRestored (w : World) : World :=
  let w :=
    match menu w with
    | Some _ =>
        let w := updateMenu Left (getSidebarLabel Left) w in
        updateMenu Right (getSidebarLabel Right) w
    | None => w
    end in
  let w :=
    match palette w with
    | Some entries =>
        let sideBarPalette := {| sbp_command := CommandIDs.togglePanel |} in
        let entries :=
          foldl (fun es widget => SideBarPalette_addItem widget Left es)
            entries (widgets (leftHandler (shell w))) in
        let entries :=
          foldl (fun es widget => SideBarPalette_addItem widget Right es)
            entries (widgets (rightHandler (shell w))) in
        with_palette (Some entries) w
    | None => w
    end in
  {| shell := shell w; menu := menu w; palette := palette w;
     sideBarMenu_left := sideBarMenu_left w;
     sideBarMenu_right := sideBarMenu_right w;
     sideBarPalette := sideBarPalette w; restored := true |}.

(** What happens to the plugin: [app.restored] resolves, a panel host adds
    or removes a widget and emits its signal, the toggle command runs,
    another plugin adds an item to the View menu. *)
Inductive Event :=
| Restored
| WidgetAdded (a : Area) (widget : Widget)
| WidgetRemoved (a : Area) (widget : Widget)
| TogglePanel (args : ToggleArgs)
| ForeignItem (tag : string).

(** The signal handlers are connected by the callback on [app.restored],
    which runs once. *)
Definition step (ev : Event) (w : World) : World :=
  match ev with
  | Restored => if restored w then w else onRestored w
  | WidgetAdded a widget =>
      let w := with_shell (addWidget a widget (shell w)) w in
      if restored w then sidebarUpdated a widget add w else w
  | WidgetRemoved a widget =>
      let w := with_shell (removeWidget a widget (shell w)) w in
      if restored w then sidebarUpdated a widget remove w else w
  | TogglePanel args => with_shell (togglePanel_execute args (shell w)) w
  | ForeignItem tag =>
      match menu w with
      | Some vm => with_menu (snd (addItem (Foreign tag) vm)) w
      | None => w
      end
  end.

Definition run (evs : list Event) (w : World) : World :=
  foldl (fun w ev => step ev w) w evs.

(** The submenus of a side in a View menu, recognised by their label. *)
Definition isSideEntry (a : Area) (e : ViewItem) : bool :=
  match e with
  | Submenu m => String.eqb (label m) (getSidebarLabel a)
  | Foreign _ => false
  end.

Definition sideEntries (a : Area) (w : World) : list ViewItem :=
  match menu w with
  | Some vm => List.filter (isSideEntry a) (map snd (entries vm))
  | None => []
  end.

(** The View menu entries a rebuild leaves for a side with widgets [ws]. *)
Definition rebuilt (a : Area) (ws : list Widget) : list ViewItem :=
  match ws with
  | [] => []
  | _ :: _ =>
      [Submenu
         {| label := getSidebarLabel a;
            items :=
              map (fun widget =>
                     {| item_command := CommandIDs.togglePanel;
                        item_args := {| arg_side := areaName a;
                                        arg_title := "Show " ++ w_caption widget;
                                        arg_id := w_id widget |} |}) ws |}]
  end.

(** An empty View menu, as the main menu offers it before any item. *)
Definition emptyMenu : RankedMenu := {| entries := []; nextHandle := 0 |}.

(** The plugin activated on a shell, with or without the two optional
    services; items of other plugins reach the View menu as [ForeignItem]
    events. *)
Definition boot (sh : NotebookShell) (hasMenu hasPalette : bool) : World :=
  activate sh
    (if hasMenu then Some emptyMenu else None)
    (if hasPalette then Some [] else None).


End SideBar.

(** ** Invariants of the sidebar plugin's menu bookkeeping *)

Module SideBarInv.
Import SideBar.

(** The View menu once the handle stored for a side is disposed. *)
Definition previousDisposed (a : Area) (w : World) (vm : RankedMenu) : RankedMenu :=
  match sideBarMenu a w with
  | Some h => dispose h vm
  | None => vm
  end.

(** Handles are fresh, and an entry of the View menu is a submenu of a side
    exactly when its handle is the one stored for that side. *)
Definition menuWf (w : World) : Prop :=
  match menu w with
  | None => True
  | Some vm =>
      (forall h e, In (h, e) (entries vm) -> h < nextHandle vm) /\
      (forall a h, sideBarMenu a w = Some h -> h < nextHandle vm) /\
      (forall a h e, In (h, e) (entries vm) ->
         isSideEntry a e = true <-> sideBarMenu a w = Some h)
  end.

(** The item [updateMenu] binds to a widget of a side. *)
Definition toggleItem (a : Area) (widget : Widget) : MenuItem :=
  {| item_command := CommandIDs.togglePanel;
     item_args := {| arg_side := areaName a;
                     arg_title := "Show " ++ w_caption widget;
                     arg_id := w_id widget |} |}.

End SideBarInv.

(** Case analysis on whether a character is the slash. *)
Ltac slash_cases c :=
  let E := fresh "E" in
  destruct (Ascii.eqb "/" c) eqn:E;
  [apply Ascii.eqb_eq in E; subst c | ].

(** ** A concrete platform

    An instance of [Platform] to run the definitions on: percent-decoding of
    ASCII escapes, the extension after the last dot of the last segment,
    joining with slashes, and no re-encoding. *)

Module Sample.

Definition hexDigit (c : ascii) : option nat :=
  let n := nat_of_ascii c in
  if Nat.leb 48 n && Nat.leb n 57 then Some (n - 48)
  else if Nat.leb 65 n && Nat.leb n 70 then Some (n - 55)
  else if Nat.leb 97 n && Nat.leb n 102 then Some (n - 87)
  else None.

Fixpoint percentDecode (s : string) : option string :=
  match s with
  | EmptyString => Some EmptyString
  | String "%"%char (String a (String b rest)) =>
      match hexDigit a, hexDigit b with
      | Some x, Some y =>
          if Nat.ltb (16 * x + y) 128
          then String (ascii_of_nat (16 * x + y)) <$> percentDecode rest
          else None
      | _, _ => None
      end
  | String "%"%char _ => None
  | String c rest => String c <$> percentDecode rest
  end.

Definition lastDotSuffix (s : string) : string :=
  match rev (URLExt.split "." (List.last (URLExt.split "/" s) EmptyString)) with
  | e :: _ :: _ => String "."%char e
  | _ => EmptyString
  end.

#[export] Instance platform : Platform := {|
  decodeURIComponent := percentDecode;
  extname := lastDotSuffix;
  URLExt_join := String.concat "/";
  URLExt_encodeParts := fun s => s
|}.

End Sample.

(** ** More of the toggle command: its checked state *)

Module TogglePanel.
Import SideBar.

(** One case of the [switch] in [isToggled]. *)
Definition isToggled_side (a : Area) (args : ToggleArgs) (sh : NotebookShell)
  : bool :=
  if collapsed (handler a sh) then false
  else match currentWidget (handler a sh) with
       | None => false
       | Some w => String.eqb (w_id w) (arg_id args)
       end.

(** The [isToggled] of [CommandIDs.togglePanel]. *)
Definition isToggled (args : ToggleArgs) (sh : NotebookShell) : bool :=
  if String.eqb (arg_side args) "left" then isToggled_side Left args sh
  else if String.eqb (arg_side args) "right" then isToggled_side Right args sh
  else false.

End TogglePanel.

(** ** The router plugin *)

Module RouterPlugin.
Import Router.

(** The application, and whether the callback on [app.started] has run (it
    routes once and only then listens to [popstate]). *)
Record State := { app : App; started : bool }.

Definition activate (a : App) : State := {| app := a; started := false |}.

(** The browser moving to another history entry. *)
Definition with_location (loc : ILocation) (a : App) : App :=
  {| location := loc;
     history := history a;
     pageConfig := pageConfig a;
     configWrites := configWrites a;
     rules := rules a;
     opener := opener a;
     resolver := resolver a |}.

(** [app.started] resolving, and a [popstate] event of the window, fired
    after the browser changed its location. *)
Inductive Event :=
| AppStarted
| Popstate (loc : ILocation).

Definition step `{Platform} (ev : Event) (st : State) : State :=
  match ev with
  | AppStarted =>
      if started st then st
      else {| app := route (app st); started := true |}
  | Popstate loc =>
      let a := with_location loc (app st) in
      {| app := if started st then route a else a; started := started st |}
  end.

Definition run `{Platform} (evs : list Event) (st : State) : State :=
  foldl (fun st ev => step ev st) st evs.

End RouterPlugin.

(** ** Successive calls of the tree path updater *)

Module TreePathUpdates.
Import Router TreePathUpdater.

Definition updates `{Platform} (treePaths : list string) (app : App) : App :=
  foldl (fun app treePath => updateTreePath treePath app) app treePaths.

(** The arguments of a sequence of calls that differ from the tree path
    recorded just before their call. *)
Fixpoint changes (recorded : string) (treePaths : list string) : list string :=
  match treePaths with
  | [] => []
  | p :: rest =>
      if String.eqb p recorded then changes recorded rest
      else p :: changes p rest
  end.

(** The URL [updateTreePath] navigates to. *)
Definition treeUrl `{Platform} (pc : gmap string string) (treePath : string)
  : string :=
  URLExt_join
    [orSlash (PageConfig.getOption "baseUrl" pc); "tree";
     URLExt_encodeParts treePath].

End TreePathUpdates.

(** ** Display names: the suffix pattern *)

(** More platform functions: [encodeURIComponent] and [PathExt.basename]. *)
Class PathPlatform := {
  encodeURIComponent : string -> string;
  basename : string -> string
}.

Module DisplayName.

(** The pattern [STRIP_IPYNB], a literal [.ipynb] anchored at the end of the
    input, matches at the start of [s]: the literal matches and leaves
    nothing. *)
Definition STRIP_IPYNB_here (s : string) : bool :=
  existsb (fun x => String.eqb (fst x) "") (m (Lit ".ipynb") s ∅).

(** [s.replace(STRIP_IPYNB, '')]: the leftmost match is removed. *)
Fixpoint strip (s : string) : string :=
  if STRIP_IPYNB_here s then EmptyString
  else match s with
       | EmptyString => EmptyString
       | String c s' => String c (strip s')
       end.

Fixpoint endsWith (suffix s : string) : bool :=
  String.eqb s suffix ||
  match s with
  | EmptyString => false
  | String _ s' => endsWith suffix s'
  end.

End DisplayName.

(** ** The tab title plugin *)

Module TabTitle.

(** [shell.currentWidget] as [setTabTitle] tells it apart: a console panel
    (path and name of its session context), a document widget (path of its
    context), or anything else, [null] included. *)
Inductive Current :=
| ConsolePanel (sessionPath sessionName : string)
| DocumentWidget (contextPath : string)
| Other.

(** [setTabTitle]: the new [document.title]. *)
Definition setTabTitle `{PathPlatform} (current : Current) (title : string)
  : string :=
  match current with
  | ConsolePanel p n =>
      let title := if String.eqb p "" then n else p in
      DisplayName.strip (basename title)
  | DocumentWidget p => DisplayName.strip (basename p)
  | Other => title
  end.

End TabTitle.

(** ** The title plugin *)

Module Title.

(** [shell.currentWidget] as [addTitle] tells it apart: a document widget
    (its title label), or anything else, [null] included. *)
Inductive Current :=
| DocumentWidget (label : string)
| Other.

(** The title node: the text of each [h1] appended to it, how often the
    rename command was added to the registry, and whether [onclick] is set. *)
Record Node := {
  children : list string;
  renameAdded : nat;
  onclick : bool
}.

Definition emptyNode : Node :=
  {| children := []; renameAdded := 0; onclick := false |}.

(** [addTitle], given whether a document manager is present. *)
Definition addTitle (docManager : bool) (current : Current) (node : Node) : Node :=
  match current with
  | Other => node
  | DocumentWidget label =>
      if Nat.ltb 0 (length (children node)) then node
      else
        let node :=
          {| children := children node ++ [DisplayName.strip label];
             renameAdded := renameAdded node;
             onclick := onclick node |} in
        if negb docManager then node
        else {| children := children node;
                renameAdded := S (renameAdded node);
                onclick := true |}
  end.

(** [addTitle] runs at activation and on every [currentChanged]. *)
Definition run (docManager : bool) (currents : list Current) (node : Node) : Node :=
  foldl (fun node current => addTitle docManager current node) node currents.

Definition isDocument (c : Current) : bool :=
  match c with
  | DocumentWidget _ => true
  | Other => false
  end.

(** The [execute] of [CommandIDs.rename]: the text of the title and the
    application afterwards.  [enabled] is [isEnabled()]; [result] is whether
    the rename dialog returned something; [newPath] is the path of the
    widget's context after the dialog; [router] is whether a router is
    present. *)
Definition rename_execute `{Platform} `{PathPlatform}
    (enabled result router : bool) (newPath : string)
    (text : string) (app : Router.App) : string * Router.App :=
  if negb enabled then (text, app)
  else if negb result then (text, app)
  else
    let text := DisplayName.strip (basename newPath) in
    if negb router then (text, app)
    else
      let matches := exec TREE_PATTERN (path (Router.location app)) in
      match group 1 matches, group 2 matches with
      | Some route, Some path =>
          if String.eqb route "" || String.eqb path "" then (text, app)
          else
            let encoded := encodeURIComponent newPath in
            (text,
             Router.navigate
               (String "/" (route ++ String "/" encoded)) true app)
      | _, _ => (text, app)
      end.

End Title.

(** ** The top visibility plugin *)

Module TopVisibility.

Inductive ShellCall := expandTop | collapseTop.

(** The top area (attached, so visible exactly when not hidden), the
    variable [settingsOverride], the values written to the setting
    [visible], and the calls made on the shell. *)
Record State := {
  topHidden : bool;
  settingsOverride : bool;
  saved : list bool;
  shellCalls : list ShellCall
}.

Definition isVisible (st : State) : bool := negb (topHidden st).

Definition setHidden (hidden : bool) (st : State) : State :=
  {| topHidden := hidden;
     settingsOverride := settingsOverride st;
     saved := saved st;
     shellCalls := shellCalls st |}.

(** The [execute] of [CommandIDs.toggleTop]. *)
Definition toggleTop (settingRegistry : bool) (st : State) : State :=
  let st := setHidden (isVisible st) st in
  if settingRegistry
  then {| topHidden := topHidden st;
          settingsOverride := settingsOverride st;
          saved := saved st ++ [isVisible st];
          shellCalls := shellCalls st |}
  else st.

(** [updateSettings]: [visible] is the composite value, [user] the user's
    own value ([None] when undefined). *)
Definition updateSettings (visible : bool) (user : option bool) (st : State)
  : State :=
  match user with
  | Some _ =>
      setHidden (negb visible)
        {| topHidden := topHidden st;
           settingsOverride := true;
           saved := saved st;
           shellCalls := shellCalls st |}
  | None => st
  end.

(** The shell's [expandTop] and [collapseTop] show and hide the top area,
    the widget [notebookShell.top] that the toggle command reads; the call
    is recorded as well. *)
Definition shellCall (c : ShellCall) (st : State) : State :=
  {| topHidden := match c with expandTop => false | collapseTop => true end;
     settingsOverride := settingsOverride st;
     saved := saved st;
     shellCalls := shellCalls st ++ [c] |}.

(** [onChanged], connected to [app.formatChanged]. *)
Definition onChanged (format : string) (st : State) : State :=
  if settingsOverride st then st
  else
    shellCall (if String.eqb format "desktop" then expandTop else collapseTop)
      st.

(** The command, the settings loading or changing (only with a setting
    registry), and the format changing. *)
Inductive Event :=
| ToggleTop
| Settings (visible : bool) (user : option bool)
| FormatChanged (format : string).

Definition step (settingRegistry : bool) (ev : Event) (st : State) : State :=
  match ev with
  | ToggleTop => toggleTop settingRegistry st
  | Settings visible user =>
      if settingRegistry then updateSettings visible user st else st
  | FormatChanged format => onChanged format st
  end.

Definition run (settingRegistry : bool) (evs : list Event) (st : State) : State :=
  foldl (fun st ev => step settingRegistry ev st) st evs.

Definition activate (hidden : bool) : State :=
  {| topHidden := hidden; settingsOverride := false; saved := [];
     shellCalls := [] |}.

Definition overrides (ev : Event) : bool :=
  match ev with
  | Settings _ (Some _) => true
  | _ => false
  end.

End TopVisibility.

(** ** The zen mode plugin *)

Module Zen.

Inductive ShellCall := collapseTop | expandTop.
Inductive FullscreenCall := requestFullscreen | exitFullscreen.

(** The variable [zenModeEnabled], whether the document has a fullscreen
    element, the fullscreen calls made, and, on the optional shell, the
    calls made and whether its menu is hidden. *)
Record State := {
  zenModeEnabled : bool;
  fullscreenElement : bool;
  fullscreenCalls : list FullscreenCall;
  shellCalls : list ShellCall;
  menuHidden : bool
}.

Definition toggleOn (notebookShell : bool) (st : State) : State :=
  {| zenModeEnabled := true;
     fullscreenElement := fullscreenElement st;
     fullscreenCalls := fullscreenCalls st;
     shellCalls := if notebookShell then shellCalls st ++ [collapseTop]
                   else shellCalls st;
     menuHidden := if notebookShell then true else menuHidden st |}.

Definition toggleOff (notebookShell : bool) (st : State) : State :=
  {| zenModeEnabled := false;
     fullscreenElement := fullscreenElement st;
     fullscreenCalls := fullscreenCalls st;
     shellCalls := if notebookShell then shellCalls st ++ [expandTop]
                   else shellCalls st;
     menuHidden := if notebookShell then false else menuHidden st |}.

Definition call (c : FullscreenCall) (st : State) : State :=
  {| zenModeEnabled := zenModeEnabled st;
     fullscreenElement := fullscreenElement st;
     fullscreenCalls := fullscreenCalls st ++ [c];
     shellCalls := shellCalls st;
     menuHidden := menuHidden st |}.

(** The [execute] of [CommandIDs.toggleZen]. *)
Definition toggleZen (notebookShell : bool) (st : State) : State :=
  if negb (zenModeEnabled st)
  then toggleOn notebookShell (call requestFullscreen st)
  else toggleOff notebookShell (call exitFullscreen st).

(** The listener of [fullscreenchange]; the browser has set the fullscreen
    element before it fires the event. *)
Definition onFullscreenChange (notebookShell : bool) (element : bool)
    (st : State) : State :=
  let st :=
    {| zenModeEnabled := zenModeEnabled st;
       fullscreenElement := element;
       fullscreenCalls := fullscreenCalls st;
       shellCalls := shellCalls st;
       menuHidden := menuHidden st |} in
  if negb (fullscreenElement st) then toggleOff notebookShell st else st.

Inductive Event :=
| ToggleZen
| FullscreenChange (element : bool).

Definition step (notebookShell : bool) (ev : Event) (st : State) : State :=
  match ev with
  | ToggleZen => toggleZen notebookShell st
  | FullscreenChange element => onFullscreenChange notebookShell element st
  end.

Definition run (notebookShell : bool) (evs : list Event) (st : State) : State :=
  foldl (fun st ev => step notebookShell ev st) st evs.

Definition activate (menuHidden : bool) : State :=
  {| zenModeEnabled := false; fullscreenElement := false;
     fullscreenCalls := []; shellCalls := []; menuHidden := menuHidden |}.

End Zen.

(** ** Auxiliary notions for the statements *)

Module Aux.

(** Every side's View menu entries are those rebuilt from its panels, once
    the application is restored, and none before. *)
Definition syncedAll (w : SideBar.World) : Prop :=
  forall a, SideBar.sideEntries a w
            = if SideBar.restored w
              then SideBar.rebuilt a
                     (SideBar.widgets (SideBar.handler a (SideBar.shell w)))
              else [].

(** The disposable set of the tree resolver with all its members released. *)
Definition released (st : TreeResolver.State) : Prop :=
  TreeResolver.isDisposed st = true /\
  TreeResolver.commandAdded st = false /\
  TreeResolver.ruleRegistered st = false /\
  TreeResolver.listenerConnected st = false.

(** What holds of the router plugin's state: before the start nothing was
    routed; after it the resolver is settled and released. *)
Definition pluginInv (treeFirst : bool) (pc : gmap string string)
    (settings : option (PromiseState unit)) (st : RouterPlugin.State) : Prop :=
  if RouterPlugin.started st
  then released (Router.resolver (RouterPlugin.app st)) /\
       TreeResolver.resolveCalls (Router.resolver (RouterPlugin.app st)) = 1 /\
       TreeResolver.disposals (Router.resolver (RouterPlugin.app st)) = 1 /\
       TreeResolver.promise (Router.resolver (RouterPlugin.app st)) <> Pending
  else exists loc, RouterPlugin.app st = Router.start treeFirst loc pc settings.

(** What the zen mode plugin keeps: zen mode is only on after a fullscreen
    request; with a shell, once the plugin has called it, its menu is hidden
    exactly in zen mode and the last call on the top area fits; without a
    shell, no call is made. *)
Definition zenInv (notebookShell : bool) (st : Zen.State) : Prop :=
  (Zen.zenModeEnabled st = true ->
   List.last (Zen.fullscreenCalls st) Zen.exitFullscreen = Zen.requestFullscreen) /\
  (if notebookShell
   then (Zen.zenModeEnabled st = true -> Zen.shellCalls st <> []) /\
        (Zen.shellCalls st <> [] ->
         Zen.menuHidden st = Zen.zenModeEnabled st /\
         List.last (Zen.shellCalls st) Zen.expandTop
         = if Zen.zenModeEnabled st then Zen.collapseTop else Zen.expandTop)
   else Zen.shellCalls st = []).

(** The shell calls of the top visibility plugin that a sequence of events
    asks for: one per format change, up to the first settings event that
    carries a user value (with a setting registry). *)
Fixpoint expectedTopCalls (settingRegistry : bool)
    (evs : list TopVisibility.Event) : list TopVisibility.ShellCall :=
  match evs with
  | [] => []
  | TopVisibility.FormatChanged format :: rest =>
      (if String.eqb format "desktop"
       then TopVisibility.expandTop else TopVisibility.collapseTop)
      :: expectedTopCalls settingRegistry rest
  | TopVisibility.Settings _ (Some _) :: rest =>
      if settingRegistry then [] else expectedTopCalls settingRegistry rest
  | _ :: rest => expectedTopCalls settingRegistry rest
  end.

(** No line terminator in the string. *)
Fixpoint noLineTerminator (s : string) : bool :=
  match s with
  | EmptyString => true
  | String c s' => negb (isLineTerminator c) && noLineTerminator s'
  end.

(** [p] is a prefix of [s]. *)
Fixpoint startsWith (p s : string) : bool :=
  match p, s with
  | EmptyString, _ => true
  | String a p', String b s' => Ascii.eqb a b && startsWith p' s'
  | String _ _, EmptyString => false
  end.

(** The string holds [/notebooks/] or [/edit/] somewhere. *)
Fixpoint holdsDocumentRoute (s : string) : bool :=
  startsWith "/notebooks/" s || startsWith "/edit/" s ||
  match s with
  | EmptyString => false
  | String _ s' => holdsDocumentRoute s'
  end.

(** The longest prefix without a line terminator, and what follows it. *)
Fixpoint takeLine (s : string) : string :=
  match s with
  | EmptyString => EmptyString
  | String c s' => if isLineTerminator c then EmptyString else String c (takeLine s')
  end.

Fixpoint dropLine (s : string) : string :=
  match s with
  | EmptyString => EmptyString
  | String c s' => if isLineTerminator c then s else dropLine s'
  end.

Definition isRoute (g : string) : Prop := g = "notebooks" \/ g = "edit".

End Aux.

(** ** A concrete path platform

    An instance of [PathPlatform] to run the definitions on: percent-encoding
    of every character but letters, digits and ten marks, and the last
    segment of a path. *)

Module SamplePaths.

Definition isUnreserved (c : ascii) : bool :=
  let n := nat_of_ascii c in
  (Nat.leb 48 n && Nat.leb n 57) || (Nat.leb 65 n && Nat.leb n 90) ||
  (Nat.leb 97 n && Nat.leb n 122) ||
  existsb (Nat.eqb n) [33; 39; 40; 41; 42; 45; 46; 95; 126].

Definition hexChar (n : nat) : ascii :=
  if Nat.ltb n 10 then ascii_of_nat (48 + n) else ascii_of_nat (55 + n).

Fixpoint percentEncode (s : string) : string :=
  match s with
  | EmptyString => EmptyString
  | String c rest =>
      if isUnreserved c then String c (percentEncode rest)
      else String "%"
             (String (hexChar (nat_of_ascii c / 16))
                (String (hexChar (nat_of_ascii c mod 16)) (percentEncode rest)))
  end.

Definition lastSegment (s : string) : string :=
  List.last (URLExt.split "/" s) EmptyString.

#[export] Instance platform : PathPlatform := {|
  encodeURIComponent := percentEncode;
  basename := lastSegment
|}.

End SamplePaths.

(** * Properties *)

(** ** The two route patterns *)

Section Patterns.

Lemma test_nil r : test r "" = true <-> m r "" ∅ <> [].
Proof.
  unfold test. cbn [exec].
  destruct (m r "" ∅) as [|[rest c] l]; split; intros; congruence.
Qed.

Lemma test_cons r c s :
  test r (String c s) = true <-> m r (String c s) ∅ <> [] \/ test r s = true.
Proof.
  unfold test. cbn [exec].
  destruct (m r (String c s) ∅) as [|[rest c'] l].
  - split; [intros; right; assumption | intros [?|?]; congruence].
  - split; [intros; left; discriminate | reflexivity].
Qed.

Lemma m_Opt_nonempty r s c : m (Opt r) s c <> [].
Proof. cbn [m]. destruct (m r s c); discriminate. Qed.

Lemma m_treePattern s :
  m treePattern s ∅ <> [] <-> exists t, s = String "/" t.
Proof.
  unfold treePattern. destruct s as [|c t].
  - cbn [m flat_map]. split; [congruence | intros [? ?]; discriminate].
  - slash_cases c.
    + split; [eauto | intros _].
      change (flat_map (fun x => m (Opt (Group 1 (Seq (Lit "/tree/") (Star Any))))
                                   (fst x) (snd x)) [(t, ∅)] <> []).
      cbn [flat_map fst snd]. rewrite app_nil_r. apply m_Opt_nonempty.
    + cbn [m]. rewrite E. cbn [flat_map].
      split; [congruence | intros [t' Ht]; injection Ht as -> _].
      rewrite Ascii.eqb_refl in E. discriminate.
Qed.

Lemma m_TREE_PATTERN s :
  m TREE_PATTERN s ∅ <> [] -> exists t, s = String "/" t.
Proof.
  unfold TREE_PATTERN. destruct s as [|c t].
  - cbn [m flat_map]. congruence.
  - slash_cases c; [eauto | ].
    cbn [m]. rewrite E. cbn [flat_map]. congruence.
Qed.

Lemma treePattern_contains s :
  test treePattern s = true <-> contains "/" s = true.
Proof.
  induction s as [|c s IH].
  - rewrite test_nil, m_treePattern. cbn [contains].
    split; [intros [? ?] | ]; discriminate.
  - rewrite test_cons, m_treePattern, IH. cbn [contains].
    rewrite orb_true_iff. split.
    + intros [[t Ht]|?]; [left | right; assumption].
      injection Ht as -> _. apply Ascii.eqb_refl.
    + intros [E|?]; [left | right; assumption].
      apply Ascii.eqb_eq in E. subst c. eauto.
Qed.

Lemma TREE_PATTERN_contains s :
  test TREE_PATTERN s = true -> contains "/" s = true.
Proof.
  induction s as [|c s IH].
  - rewrite test_nil. intros H. apply m_TREE_PATTERN in H as [? ?]. discriminate.
  - rewrite test_cons. cbn [contains]. rewrite orb_true_iff.
    intros [H|H]; [left | right; auto].
    apply m_TREE_PATTERN in H as [t Ht]. injection Ht as -> _.
    apply Ascii.eqb_refl.
Qed.

End Patterns.

(** The two patterns on sample paths. *)
Example TREE_PATTERN_notebook :
  group 1 (exec TREE_PATTERN "/notebooks/dir/a.ipynb") = Some "notebooks" /\
  group 2 (exec TREE_PATTERN "/notebooks/dir/a.ipynb") = Some "dir/a.ipynb".
Proof. split; vm_compute; reflexivity. Qed.

Example TREE_PATTERN_empty_capture :
  group 2 (exec TREE_PATTERN "/edit/") = Some "".
Proof. vm_compute; reflexivity. Qed.

Example TREE_PATTERN_tree : exec TREE_PATTERN "/tree/dir" = None.
Proof. vm_compute; reflexivity. Qed.

Example treePattern_tree :
  whole <$> exec treePattern "/tree/dir" = Some "/" /\
  group 1 (exec treePattern "/tree/dir") = None.
Proof. split; vm_compute; reflexivity. Qed.

Example treePattern_double_slash :
  group 1 (exec treePattern "//tree/dir") = Some "/tree/dir".
Proof. vm_compute; reflexivity. Qed.

Example treePattern_no_slash : exec treePattern "nonexistent" = None.
Proof. vm_compute; reflexivity. Qed.

(** C4, counterexample: the path [/notebooks/a.ipynb] matches the
    document-open pattern and the tree-resolution pattern, so the two are
    not mutually exclusive. *)
Lemma C4_both_patterns_match :
  test TREE_PATTERN "/notebooks/a.ipynb" = true /\
  test treePattern "/notebooks/a.ipynb" = true.
Proof. split; vm_compute; reflexivity. Qed.

(** C4, amended: every path the document-open pattern matches is also
    matched by the tree-resolution pattern (which matches any path holding a
    slash); a path can match both, or the tree-resolution pattern alone, or
    neither, but never the document-open pattern alone. *)
Theorem C4_document_paths_match_tree_pattern (path : string) :
  test TREE_PATTERN path = true -> test treePattern path = true.
Proof.
  intros H. apply treePattern_contains, TREE_PATTERN_contains, H.
Qed.

(** C4, witness: the path [/edit/notes.txt]. *)
Lemma C4_document_paths_match_tree_pattern_witness :
  test TREE_PATTERN "/edit/notes.txt" = true /\
  test treePattern "/edit/notes.txt" = true.
Proof.
  split; [vm_compute; reflexivity | ].
  apply (C4_document_paths_match_tree_pattern "/edit/notes.txt").
  vm_compute; reflexivity.
Defined.

(** ** The tree resolver *)

Section TreeResolverFacts.
Import TreeResolver.
Context `{Platform}.

Lemma deliver_disposed pc ev st :
  isDisposed st = true -> deliver pc ev st = st.
Proof.
  intros D. destruct ev; unfold deliver, execute, listener; rewrite D; reflexivity.
Qed.

Lemma run_disposed pc evs st :
  isDisposed st = true -> run pc evs st = st.
Proof.
  revert st. induction evs as [|ev evs IH]; intros st D; [reflexivity | ].
  unfold run. cbn [foldl]. rewrite deliver_disposed by assumption.
  apply IH, D.
Qed.

Lemma deliver_ineffective pc ev st :
  effective ev = false -> deliver pc ev st = st.
Proof.
  destruct ev as [args|]; [ | discriminate].
  unfold effective, deliver, execute. intros E.
  destruct (URLExt.queryStringToObject (default "" (search args)));
    [discriminate | ].
  destruct (isDisposed st); reflexivity.
Qed.

Lemma deliver_effective pc ev st :
  isDisposed st = false -> effective ev = true ->
  deliver pc ev st = delegate_resolve (outcome pc ev) (set_dispose st).
Proof.
  intros D E. destruct ev as [args|].
  - unfold effective in E. unfold deliver, execute, outcome. rewrite D.
    destruct (URLExt.queryStringToObject (default "" (search args)));
      [reflexivity | discriminate].
  - unfold deliver, listener, outcome. rewrite D. reflexivity.
Qed.

Lemma run_from_live pc evs st :
  isDisposed st = false -> promise st = Pending ->
  match List.find effective evs with
  | Some ev =>
      run pc evs st = delegate_resolve (outcome pc ev) (set_dispose st)
  | None => run pc evs st = st
  end.
Proof.
  revert st. induction evs as [|ev evs IH]; intros st D P; [reflexivity | ].
  cbn [List.find]. unfold run. cbn [foldl].
  destruct (effective ev) eqn:E.
  - rewrite deliver_effective by assumption.
    apply run_disposed. unfold set_dispose. rewrite D. reflexivity.
  - rewrite deliver_ineffective by assumption. apply IH; assumption.
Qed.

(** When [decodeURIComponent] never throws, every query string parses and
    every event is effective, so the first event delivered resolves. *)
Lemma queryStringToObject_total value :
  (forall s, is_Some (decodeURIComponent s)) ->
  is_Some (URLExt.queryStringToObject value).
Proof.
  intros T. unfold URLExt.queryStringToObject.
  generalize (URLExt.split "&" (URLExt.stripQuestionMark value)).
  generalize (∅ : gmap string string).
  intros acc l. revert acc. induction l as [|val l IH]; intros acc.
  - cbn [foldl]. eauto.
  - cbn [foldl].
    destruct (Nat.ltb 0 _); [ | apply IH].
    destruct (T (default "" (URLExt.split "=" val !! 1))) as [v ->]. apply IH.
Qed.

Lemma first_event_resolves pc ev evs :
  (forall s, is_Some (decodeURIComponent s)) ->
  promise (run pc (ev :: evs) activate) = Fulfilled (outcome pc ev) /\
  resolveCalls (run pc (ev :: evs) activate) = 1.
Proof.
  intros T.
  assert (E : effective ev = true).
  { destruct ev as [args|]; [ | reflexivity]. unfold effective.
    destruct (queryStringToObject_total (default "" (search args)) T) as [q ->].
    reflexivity. }
  pose proof (run_from_live pc (ev :: evs) activate eq_refl eq_refl) as R.
  cbn [List.find] in R. rewrite E in R. rewrite R. split; reflexivity.
Qed.

End TreeResolverFacts.

(** C1, counterexample: the resolve-tree command executed with the query
    string [?a=%].  [decodeURIComponent] refuses the lone percent sign, so
    [URLExt.queryStringToObject] throws and the command rejects before it
    reaches the set: a recognized condition has fired, one event has been
    delivered, and the promise is still pending, not resolved once.  A
    second execution, whose query parses, then fulfils the promise: the
    value is the outcome of the second event, not of the one that fired
    first. *)
Lemma C1_unparsable_query_no_resolution :
  URLExt.queryStringToObject (H := Sample.platform) "?a=%" = None /\
  TreeResolver.resolveCalls
    (TreeResolver.run (H := Sample.platform) ∅
       [TreeResolver.Execute
          {| hash := ""; path := "/tree"; request := "/tree?a=%";
             search := Some "?a=%" |}]
       TreeResolver.activate) <> 1 /\
  TreeResolver.promise
    (TreeResolver.run (H := Sample.platform) ∅
       [TreeResolver.Execute
          {| hash := ""; path := "/tree"; request := "/tree?a=%";
             search := Some "?a=%" |}]
       TreeResolver.activate) = Pending /\
  TreeResolver.promise
    (TreeResolver.run (H := Sample.platform) ∅
       [TreeResolver.Execute
          {| hash := ""; path := "/tree"; request := "/tree?a=%";
             search := Some "?a=%" |};
        TreeResolver.Execute
          {| hash := ""; path := "/tree"; request := "/tree?b=c";
             search := Some "?b=c" |}]
       TreeResolver.activate)
  = Fulfilled (Some {| TreeResolver.browser := ""; TreeResolver.file := "" |}).
Proof.
  split; [vm_compute; reflexivity | ].
  split; [vm_compute; discriminate | ].
  split; vm_compute; reflexivity.
Qed.

(** C1, amended: the events that take effect are the routed notifications
    and the executions of the resolve-tree command whose query string
    parses.  For every sequence of events delivered to the tree resolver
    after activation that holds such an event, the promise is resolved
    exactly once, with the outcome of the first such event, the set is
    disposed exactly once, at that point, and every later event leaves the
    resolver as it is; as long as no such event has been delivered (an
    execution whose query string does not parse takes no effect) the
    promise is pending and nothing is disposed. *)
Theorem C1_resolved_once_by_first_effective_event `{Platform}
    (pc : gmap string string) (evs : list TreeResolver.Event) :
  let st := TreeResolver.run pc evs TreeResolver.activate in
  match List.find TreeResolver.effective evs with
  | Some ev =>
      TreeResolver.promise st = Fulfilled (TreeResolver.outcome pc ev) /\
      TreeResolver.resolveCalls st = 1 /\
      TreeResolver.disposals st = 1 /\
      TreeResolver.isDisposed st = true /\
      (forall later, TreeResolver.run pc (evs ++ later) TreeResolver.activate = st)
  | None =>
      TreeResolver.promise st = Pending /\
      TreeResolver.resolveCalls st = 0 /\
      TreeResolver.disposals st = 0 /\
      TreeResolver.isDisposed st = false
  end.
Proof.
  intros st. subst st.
  pose proof (run_from_live pc evs TreeResolver.activate eq_refl eq_refl) as R.
  destruct (List.find TreeResolver.effective evs) as [ev|].
  - rewrite R. repeat split.
    intros later. unfold TreeResolver.run in *. rewrite foldl_app, R.
    apply run_disposed. reflexivity.
  - rewrite R. repeat split.
Qed.

(** C5: executed first with path [/tree] and query
    [file-browser-path=/data] while [treePath] holds [notebooks/a.ipynb],
    the resolve-tree command fulfils the promise with browser [/data] and
    file [notebooks/a.ipynb]; and when the parsed query has no
    [file-browser-path] key, the browser component is the empty string. *)
Theorem C5_resolve_tree_paths `{Platform}
    (pc : gmap string string) (h r : string) :
  decodeURIComponent "/data" = Some "/data" ->
  PageConfig.getOption "treePath" pc = "notebooks/a.ipynb" ->
  (forall q, In q ["?file-browser-path=/data"; "file-browser-path=/data"] ->
     TreeResolver.promise
       (TreeResolver.execute pc
          {| hash := h; path := "/tree"; request := r; search := Some q |}
          TreeResolver.activate)
     = Fulfilled (Some {| TreeResolver.browser := "/data";
                          TreeResolver.file := "notebooks/a.ipynb" |})) /\
  (forall args query,
     URLExt.queryStringToObject (default "" (search args)) = Some query ->
     query !! "file-browser-path" = None ->
     TreeResolver.promise (TreeResolver.execute pc args TreeResolver.activate)
     = Fulfilled (Some {| TreeResolver.browser := "";
                          TreeResolver.file := PageConfig.getOption "treePath" pc |})).
Proof.
  intros D T. split.
  - intros q [<-|[<-|[]]];
      unfold TreeResolver.execute, URLExt.queryStringToObject;
      cbn; rewrite D; cbn; rewrite T; reflexivity.
  - intros args query Q N. unfold TreeResolver.execute.
    cbn [TreeResolver.isDisposed TreeResolver.activate].
    rewrite Q, N. reflexivity.
Qed.

(** C5, witness: the scenario on the sample platform. *)
Lemma C5_resolve_tree_paths_witness :
  TreeResolver.promise
    (TreeResolver.execute (H := Sample.platform)
       {[ "treePath" := "notebooks/a.ipynb" ]}
       {| hash := ""; path := "/tree";
          request := "/tree?file-browser-path=/data";
          search := Some "?file-browser-path=/data" |}
       TreeResolver.activate)
  = Fulfilled (Some {| TreeResolver.browser := "/data";
                       TreeResolver.file := "notebooks/a.ipynb" |}).
Proof.
  apply (C5_resolve_tree_paths (H := Sample.platform)
           {[ "treePath" := "notebooks/a.ipynb" ]} ""
           "/tree?file-browser-path=/data").
  - vm_compute; reflexivity.
  - vm_compute; reflexivity.
  - simpl; left; reflexivity.
Defined.

(** ** Routing a path no document pattern matches *)

Lemma nonexistent_patterns :
  test TREE_PATTERN "/nonexistent" = false /\
  test treePattern "/nonexistent" = true.
Proof. split; vm_compute; reflexivity. Qed.

(** C3, counterexample: for the path [/nonexistent] the tree-resolution
    pattern matches, the resolve-tree command runs, and the promise is not
    fulfilled with null. *)
Lemma C3_nonexistent_not_null :
  test treePattern "/nonexistent" = true /\
  TreeResolver.promise
    (Router.resolver
       (Router.route (H := Sample.platform)
          (Router.start false
             {| hash := ""; path := "/nonexistent";
                request := "/nonexistent"; search := None |}
             {[ "treePath" := "notebooks/a.ipynb" ]} None)))
  <> Fulfilled None.
Proof. split; [vm_compute; reflexivity | vm_compute; discriminate]. Qed.

(** C3, amended: for a navigation whose path is [/nonexistent] the
    document-open pattern does not match but the tree-resolution pattern
    does; the resolve-tree command therefore executes and, when the query
    string parses, the promise fulfils with the browser path of the query
    (the empty string when it has none) and the stored tree path, not with
    null. *)
Theorem C3_nonexistent_resolves_paths `{Platform}
    (treeFirst : bool) (loc : ILocation) (pc : gmap string string)
    (settings : option (PromiseState unit)) (query : gmap string string) :
  path loc = "/nonexistent" ->
  URLExt.queryStringToObject (default "" (search loc)) = Some query ->
  test TREE_PATTERN (path loc) = false /\
  test treePattern (path loc) = true /\
  TreeResolver.promise
    (Router.resolver (Router.route (Router.start treeFirst loc pc settings)))
  = Fulfilled
      (Some {| TreeResolver.browser := default "" (query !! "file-browser-path");
               TreeResolver.file := PageConfig.getOption "treePath" pc |}).
Proof.
  intros P Q. destruct nonexistent_patterns as [T1 T2].
  rewrite P. split; [exact T1 | split; [exact T2 | ]].
  unfold Router.route, Router.registered.
  destruct treeFirst;
    cbn [Router.start Router.location Router.rules Router.resolver
         Router.command Router.pattern Router.openerRule Router.treeRule
         TreeResolver.activate TreeResolver.ruleRegistered
         List.filter List.find String.eqb Ascii.eqb Bool.eqb
         CommandIDs.resolveTree CommandIDs.routerTree];
    rewrite P, ?T1, T2;
    unfold Router.commands_execute;
    cbn [Router.command Router.treeRule String.eqb Ascii.eqb Bool.eqb
         CommandIDs.resolveTree CommandIDs.routerTree
         Router.resolver Router.pageConfig
         TreeResolver.commandAdded TreeResolver.activate];
    unfold TreeResolver.execute;
    cbn [TreeResolver.isDisposed TreeResolver.activate];
    rewrite Q; reflexivity.
Qed.

(** C3, witness: [/nonexistent] with no query, the tree rule registered
    first. *)
Lemma C3_nonexistent_resolves_paths_witness :
  TreeResolver.promise
    (Router.resolver
       (Router.route (H := Sample.platform)
          (Router.start true
             {| hash := ""; path := "/nonexistent";
                request := "/nonexistent"; search := None |}
             {[ "treePath" := "notebooks/a.ipynb" ]} None)))
  = Fulfilled (Some {| TreeResolver.browser := "";
                       TreeResolver.file := "notebooks/a.ipynb" |}).
Proof.
  refine (proj2 (proj2 (C3_nonexistent_resolves_paths (H := Sample.platform)
           true
           {| hash := ""; path := "/nonexistent";
              request := "/nonexistent"; search := None |}
           {[ "treePath" := "notebooks/a.ipynb" ]} None ∅ _ _))).
  - reflexivity.
  - vm_compute; reflexivity.
Defined.

(** Whatever the location, the first [route] resolves the promise, once:
    through the command when the tree rule is the first match and the query
    parses, through the listener otherwise. *)
Lemma route_resolves_once `{Platform} (treeFirst : bool) (loc : ILocation)
    (pc : gmap string string) (settings : option (PromiseState unit)) :
  let app := Router.route (Router.start treeFirst loc pc settings) in
  TreeResolver.resolveCalls (Router.resolver app) = 1 /\
  TreeResolver.disposals (Router.resolver app) = 1 /\
  TreeResolver.promise (Router.resolver app) <> Pending.
Proof.
  intros app. subst app. unfold Router.route, Router.registered.
  destruct treeFirst;
    cbn [Router.start Router.location Router.rules Router.resolver
         Router.command Router.pattern Router.openerRule Router.treeRule
         TreeResolver.activate TreeResolver.ruleRegistered
         List.filter List.find String.eqb Ascii.eqb Bool.eqb
         CommandIDs.resolveTree CommandIDs.routerTree];
    destruct (test treePattern (path loc));
    destruct (test TREE_PATTERN (path loc));
    unfold Router.commands_execute;
    cbn [Router.command Router.treeRule Router.openerRule
         String.eqb Ascii.eqb Bool.eqb
         CommandIDs.resolveTree CommandIDs.routerTree
         Router.resolver Router.pageConfig Router.with_opener
         Router.with_resolver TreeResolver.commandAdded TreeResolver.activate];
    unfold TreeResolver.execute, Router.routed_emit;
    cbn [TreeResolver.isDisposed TreeResolver.activate Router.resolver
         Router.with_resolver TreeResolver.listenerConnected];
    try destruct (URLExt.queryStringToObject (default "" (search loc)));
    cbn; repeat split; discriminate.
Qed.

(** ** The tree path updater *)

Section TreePathUpdaterFacts.
Import Router TreePathUpdater.
Context `{Platform}.

Lemma updateTreePath_same p app :
  PageConfig.getOption "treePath" (pageConfig app) = p ->
  updateTreePath p app = app.
Proof.
  intros E. unfold updateTreePath. rewrite E, String.eqb_refl. reflexivity.
Qed.

Lemma updateTreePath_records p app :
  PageConfig.getOption "treePath" (pageConfig (updateTreePath p app)) = p.
Proof.
  unfold updateTreePath.
  destruct (String.eqb p (PageConfig.getOption "treePath" (pageConfig app))) eqn:E.
  - apply String.eqb_eq in E. cbn [negb]. congruence.
  - cbn [negb]. unfold PageConfig_setOption, navigate, PageConfig.getOption,
      PageConfig.setOption. cbn [pageConfig].
    rewrite lookup_insert_eq. reflexivity.
Qed.

End TreePathUpdaterFacts.

(** C6, counterexample: two calls with the path that is already recorded
    perform no history mutation and no configuration write, not one of
    each. *)
Lemma C6_recorded_path_no_mutation :
  let app :=
    Router.start false
      {| hash := ""; path := "/tree/a.ipynb"; request := "/tree/a.ipynb";
         search := None |}
      {[ "treePath" := "a.ipynb" ]} None in
  let app2 :=
    TreePathUpdater.updateTreePath (H := Sample.platform) "a.ipynb"
      (TreePathUpdater.updateTreePath (H := Sample.platform) "a.ipynb" app) in
  length (Router.history app2) = 0 /\ length (Router.configWrites app2) = 0.
Proof. vm_compute. split; reflexivity. Qed.

(** C6, amended: calling the tree path updater twice in succession with the
    same path performs exactly one history mutation (one navigation that
    skips routing) and exactly one write of [treePath] when the path differs
    from the tree path recorded before the first call, and none of either
    when it equals it; in both cases the second call is a no-op. *)
Theorem C6_update_twice `{Platform} (treePath : string) (app : Router.App) :
  let recorded := PageConfig.getOption "treePath" (Router.pageConfig app) in
  let app1 := TreePathUpdater.updateTreePath treePath app in
  let app2 := TreePathUpdater.updateTreePath treePath app1 in
  app2 = app1 /\
  (if String.eqb treePath recorded
   then Router.history app2 = Router.history app /\
        Router.configWrites app2 = Router.configWrites app
   else Router.history app2 =
          Router.history app ++
            [URLExt_join
               [TreePathUpdater.orSlash
                  (PageConfig.getOption "baseUrl" (Router.pageConfig app));
                "tree"; URLExt_encodeParts treePath]] /\
        Router.configWrites app2 =
          Router.configWrites app ++ [("treePath", treePath)] /\
        Router.resolver app2 = Router.resolver app /\
        Router.opener app2 = Router.opener app).
Proof.
  intros recorded app1 app2.
  assert (E2 : app2 = app1).
  { subst app2. apply updateTreePath_same. subst app1.
    apply updateTreePath_records. }
  split; [exact E2 | ]. rewrite E2. subst app1 recorded.
  unfold TreePathUpdater.updateTreePath.
  destruct (String.eqb treePath
              (PageConfig.getOption "treePath" (Router.pageConfig app)));
    cbn [negb]; [split; reflexivity | ].
  repeat split.
Qed.

(** ** The opener command *)

Section OpenerFacts.
Import Opener.

(** The executor of the source leaves the promise it is given as it is. *)
Lemma executor_keeps_pending ext file w :
  snd (Promise_new (executor ext file) w) = Pending.
Proof. reflexivity. Qed.

End OpenerFacts.

(** C9: for every routed location whose path matches the document-open
    pattern with a non-empty captured path, the promise of the opener
    command's [execute] is never fulfilled: when the captured path decodes,
    the command awaits a new promise whose executor never settles it, and
    stays pending, the document having been opened with the factory its
    extension selects (for a notebook, once the panel settings are loaded);
    when it does not decode, the promise is rejected. *)
Theorem C9_opener_never_fulfils `{Platform}
    (args : ILocation) (w : Opener.World) (captured : string) :
  group 2 (exec TREE_PATTERN (path args)) = Some captured ->
  captured <> "" ->
  snd (Opener.execute args w) <> Fulfilled tt /\
  (forall file, decodeURIComponent captured = Some file ->
     snd (Opener.execute args w) = Pending /\
     (extname file <> ".ipynb" ->
        Opener.opened (fst (Opener.execute args w))
        = Opener.opened w ++ [(file, Opener.EDITOR_FACTORY)]) /\
     (extname file = ".ipynb" ->
      Opener.settingRegistry w = None \/
      Opener.settingRegistry w = Some (Fulfilled tt) ->
        Opener.opened (fst (Opener.execute args w))
        = Opener.opened w ++ [(file, Opener.NOTEBOOK_FACTORY)])).
Proof.
  intros G N. unfold Opener.execute. rewrite G.
  destruct captured as [|c rest]; [congruence | ].
  destruct (decodeURIComponent (String c rest)) as [file|] eqn:D.
  - split; [cbn; discriminate | ].
    intros file' [= <-]. split; [reflexivity | ]. split.
    + intros E. apply String.eqb_neq in E.
      unfold Opener.Promise_new, Opener.executor. cbn [fst snd]. rewrite E.
      reflexivity.
    + intros E S. unfold Opener.Promise_new, Opener.executor. cbn [fst snd].
      rewrite E. cbn [String.eqb Ascii.eqb Bool.eqb].
      destruct S as [-> | ->]; reflexivity.
  - split; [cbn; discriminate | intros file [=]].
Qed.

(** C9, witness: the path [/notebooks/work/a.ipynb]. *)
Lemma C9_opener_never_fulfils_witness :
  snd (Opener.execute (H := Sample.platform)
         {| hash := ""; path := "/notebooks/work/a.ipynb";
            request := "/notebooks/work/a.ipynb"; search := None |}
         {| Opener.settingRegistry := None; Opener.loaded := [];
            Opener.opened := [] |})
  <> Fulfilled tt.
Proof.
  refine (proj1 (C9_opener_never_fulfils (H := Sample.platform)
            {| hash := ""; path := "/notebooks/work/a.ipynb";
               request := "/notebooks/work/a.ipynb"; search := None |}
            {| Opener.settingRegistry := None; Opener.loaded := [];
               Opener.opened := [] |}
            "work/a.ipynb" _ _)).
  - vm_compute; reflexivity.
  - discriminate.
Defined.

(** ** The toggle command *)

Section ToggleFacts.
Import SideBar.

Lemma handler_with_handler a p sh : handler a (with_handler a p sh) = p.
Proof. destruct a; reflexivity. Qed.

Lemma togglePanel_execute_area a t id sh :
  togglePanel_execute {| arg_side := areaName a; arg_title := t; arg_id := id |} sh
  = togglePanel_side a {| arg_side := areaName a; arg_title := t; arg_id := id |} sh.
Proof. destruct a; reflexivity. Qed.

Lemma find_registered (W : Widget) ws :
  In W ws ->
  exists w', List.find (fun w => String.eqb (w_id w) (w_id W)) ws = Some w' /\
             w_id w' = w_id W.
Proof.
  induction ws as [|x ws IH]; intros I; [destruct I | ].
  cbn [List.find]. destruct (String.eqb (w_id x) (w_id W)) eqn:E.
  - exists x. split; [reflexivity | apply String.eqb_eq, E].
  - destruct I as [->|I]; [rewrite String.eqb_refl in E; discriminate | ].
    apply IH, I.
Qed.

(** Toggling a side that shows nothing expands it with the widget. *)
Lemma toggle_from_collapsed a id t sh w' :
  List.find (fun w => String.eqb (w_id w) id) (widgets (handler a sh)) = Some w' ->
  sideState a sh = Collapsed ->
  let sh' := togglePanel_side a
               {| arg_side := areaName a; arg_title := t; arg_id := id |} sh in
  handler a sh' = {| collapsed := false; currentWidget := Some w';
                     widgets := widgets (handler a sh) |} /\
  shellCurrentWidget sh' = shellCurrentWidget sh /\
  activated sh' = activated sh.
Proof.
  intros F S sh'. subst sh'.
  assert (E : togglePanel_side a
                {| arg_side := areaName a; arg_title := t; arg_id := id |} sh
              = expand a id sh).
  { unfold togglePanel_side, sideState in *. cbn [arg_id].
    destruct (collapsed (handler a sh)); [reflexivity | ].
    destruct (currentWidget (handler a sh)); [discriminate | reflexivity]. }
  rewrite E. unfold expand. rewrite F, handler_with_handler.
  destruct a; repeat split.
Qed.

(** Toggling a side that shows the widget collapses it and hands the focus
    back to the active main-area widget. *)
Lemma toggle_from_expanded a (w' : Widget) id t ws sh :
  w_id w' = id ->
  handler a sh = {| collapsed := false; currentWidget := Some w'; widgets := ws |} ->
  let sh' := togglePanel_side a
               {| arg_side := areaName a; arg_title := t; arg_id := id |} sh in
  handler a sh' = {| collapsed := true; currentWidget := Some w'; widgets := ws |} /\
  shellCurrentWidget sh' = shellCurrentWidget sh /\
  activated sh' =
    activated sh ++
      match shellCurrentWidget sh with
      | Some d => [w_id d]
      | None => []
      end.
Proof.
  intros E Hh sh'. subst sh'. unfold togglePanel_side. rewrite Hh.
  cbn [collapsed currentWidget idDiffers arg_id]. rewrite E, String.eqb_refl.
  cbn [negb]. unfold collapse. rewrite Hh. cbn [collapsed currentWidget widgets].
  destruct a, (shellCurrentWidget sh) eqn:C; cbn; rewrite ?C, ?app_nil_r;
    repeat split.
Qed.

End ToggleFacts.

(** C7: for a side on which widget [W] is registered, the toggle command
    with that side and [W] takes the side from collapsed to expanded with
    [W]; executed again it collapses the side and, if a main-area widget is
    active, activates that widget again (once); a third execution shows [W]
    again and a fourth collapses again: the cycle has length 2. *)
Theorem C7_toggle_cycle (a : SideBar.Area) (W : SideBar.Widget) (t : string)
    (sh : SideBar.NotebookShell) :
  In W (SideBar.widgets (SideBar.handler a sh)) ->
  SideBar.sideState a sh = SideBar.Collapsed ->
  let args := {| SideBar.arg_side := SideBar.areaName a;
                 SideBar.arg_title := t;
                 SideBar.arg_id := SideBar.w_id W |} in
  let s1 := SideBar.togglePanel_execute args sh in
  let s2 := SideBar.togglePanel_execute args s1 in
  let s3 := SideBar.togglePanel_execute args s2 in
  let s4 := SideBar.togglePanel_execute args s3 in
  SideBar.sideState a s1 = SideBar.ExpandedWithWidget (SideBar.w_id W) /\
  SideBar.activated s1 = SideBar.activated sh /\
  SideBar.sideState a s2 = SideBar.Collapsed /\
  SideBar.activated s2 =
    SideBar.activated s1 ++
      match SideBar.shellCurrentWidget sh with
      | Some d => [SideBar.w_id d]
      | None => []
      end /\
  SideBar.sideState a s3 = SideBar.ExpandedWithWidget (SideBar.w_id W) /\
  SideBar.handler a s3 = SideBar.handler a s1 /\
  SideBar.handler a s4 = SideBar.handler a s2.
Proof.
  intros I S args s1 s2 s3 s4. subst args s4 s3 s2 s1.
  rewrite !togglePanel_execute_area.
  destruct (find_registered W _ I) as (w' & F & E).
  set (args := {| SideBar.arg_side := SideBar.areaName a;
                  SideBar.arg_title := t; SideBar.arg_id := SideBar.w_id W |}).
  destruct (toggle_from_collapsed a _ t sh w' F S) as (H1 & C1 & A1).
  fold args in H1, C1, A1.
  set (s1 := SideBar.togglePanel_side a args sh) in *.
  destruct (toggle_from_expanded a w' _ t _ s1 E H1) as (H2 & C2 & A2).
  fold args in H2, C2, A2.
  set (s2 := SideBar.togglePanel_side a args s1) in *.
  assert (F2 : List.find (fun w => String.eqb (SideBar.w_id w) (SideBar.w_id W))
                 (SideBar.widgets (SideBar.handler a s2)) = Some w')
    by (rewrite H2; exact F).
  assert (S2 : SideBar.sideState a s2 = SideBar.Collapsed)
    by (unfold SideBar.sideState; rewrite H2; reflexivity).
  destruct (toggle_from_collapsed a _ t s2 w' F2 S2) as (H3 & C3 & A3).
  fold args in H3, C3, A3.
  set (s3 := SideBar.togglePanel_side a args s2) in *.
  rewrite H2 in H3. cbn [SideBar.widgets] in H3.
  destruct (toggle_from_expanded a w' _ t _ s3 E H3) as (H4 & C4 & A4).
  fold args in H4, C4, A4.
  set (s4 := SideBar.togglePanel_side a args s3) in *.
  unfold SideBar.sideState. rewrite H1, H2, H3, H4, A1, A2, C1, A1.
  cbn [SideBar.collapsed SideBar.currentWidget]. rewrite E.
  repeat split.
Qed.

(** C7, witness: a left side holding the file browser, a notebook active in
    the main area. *)
Lemma C7_toggle_cycle_witness :
  let W := {| SideBar.w_id := "filebrowser"; SideBar.w_caption := "Files" |} in
  let doc := {| SideBar.w_id := "notebook-1"; SideBar.w_caption := "a.ipynb" |} in
  let panel := {| SideBar.collapsed := true; SideBar.currentWidget := None;
                  SideBar.widgets := [W] |} in
  let sh := {| SideBar.leftHandler := panel;
               SideBar.rightHandler :=
                 {| SideBar.collapsed := true; SideBar.currentWidget := None;
                    SideBar.widgets := [] |};
               SideBar.shellCurrentWidget := Some doc;
               SideBar.activated := [] |} in
  let args := {| SideBar.arg_side := "left"; SideBar.arg_title := "Show Files";
                 SideBar.arg_id := "filebrowser" |} in
  SideBar.sideState SideBar.Left (SideBar.togglePanel_execute args sh)
  = SideBar.ExpandedWithWidget "filebrowser" /\
  SideBar.activated
    (SideBar.togglePanel_execute args (SideBar.togglePanel_execute args sh))
  = ["notebook-1"].
Proof.
  intros W doc panel sh args.
  destruct (C7_toggle_cycle SideBar.Left W "Show Files" sh) as (H1 & A1 & _ & A2 & _).
  - simpl; left; reflexivity.
  - reflexivity.
  - split; [exact H1 | exact (eq_trans A2 eq_refl)].
Defined.

(** ** The sidebar menus *)

Section MenuFacts.
Import SideBar SideBarInv.

Lemma getSidebarLabel_inj a b : getSidebarLabel a = getSidebarLabel b -> a = b.
Proof. destruct a, b; intros E; try reflexivity; discriminate. Qed.

Lemma isSideEntry_unique a b e :
  isSideEntry a e = true -> isSideEntry b e = true -> a = b.
Proof.
  destruct e as [mn|tag]; [ | discriminate]. cbn [isSideEntry].
  intros Ea Eb. apply String.eqb_eq in Ea, Eb.
  apply getSidebarLabel_inj. congruence.
Qed.

Lemma populate_spec a l its b ws :
  foldl
    (fun acc widget =>
       ({| label := label (fst acc);
           items := items (fst acc) ++
             [{| item_command := CommandIDs.togglePanel;
                 item_args := {| arg_side := areaName a;
                                 arg_title := "Show " ++ w_caption widget;
                                 arg_id := w_id widget |} |}] |},
        true))
    ({| label := l; items := its |}, b) ws
  = ({| label := l; items := its ++ map (toggleItem a) ws |},
     match ws with [] => b | _ :: _ => true end).
Proof.
  revert its b. induction ws as [|x ws IH]; intros its b.
  - cbn [foldl map]. rewrite app_nil_r. reflexivity.
  - cbn [foldl fst label items]. rewrite IH. cbn [map].
    rewrite <- app_assoc. cbn [app]. unfold toggleItem at 2.
    destruct ws; reflexivity.
Qed.

Lemma rebuilt_spec a ws :
  rebuilt a ws =
  match ws with
  | [] => []
  | _ :: _ =>
      [Submenu {| label := getSidebarLabel a; items := map (toggleItem a) ws |}]
  end.
Proof. reflexivity. Qed.

Lemma nextHandle_previousDisposed a w vm :
  nextHandle (previousDisposed a w vm) = nextHandle vm.
Proof. unfold previousDisposed. destruct (sideBarMenu a w); reflexivity. Qed.

(** [updateMenu] in closed form. *)
Lemma updateMenu_spec a w vm :
  menu w = Some vm ->
  updateMenu a (getSidebarLabel a) w =
  match widgets (handler a (shell w)) with
  | [] => with_menu (previousDisposed a w vm) w
  | _ :: _ =>
      with_sideBarMenu a (nextHandle vm)
        (with_menu
           {| entries :=
                entries (previousDisposed a w vm) ++
                  [(nextHandle vm,
                    Submenu {| label := getSidebarLabel a;
                               items := map (toggleItem a)
                                          (widgets (handler a (shell w))) |})];
              nextHandle := S (nextHandle vm) |} w)
  end.
Proof.
  intros M. unfold updateMenu. rewrite M.
  fold (previousDisposed a w vm). unfold populate. rewrite populate_spec.
  cbn [app]. unfold addItem. rewrite nextHandle_previousDisposed.
  destruct (widgets (handler a (shell w))); reflexivity.
Qed.

Lemma In_previousDisposed a w vm h e :
  In (h, e) (entries (previousDisposed a w vm)) <->
  In (h, e) (entries vm) /\ sideBarMenu a w <> Some h.
Proof.
  unfold previousDisposed. destruct (sideBarMenu a w) as [h0|].
  - cbn [dispose entries]. rewrite filter_In. cbn [fst].
    rewrite negb_true_iff, Nat.eqb_neq. split; intros [I N]; split; congruence.
  - split; [intros I; split; [exact I | discriminate] | intros [I _]; exact I].
Qed.

Lemma filter_all_false {A} (f : A -> bool) l :
  (forall x, In x l -> f x = false) -> List.filter f l = [].
Proof.
  induction l as [|x l IH]; intros F; [reflexivity | ].
  cbn [List.filter]. rewrite (F x) by (left; reflexivity).
  apply IH. intros y I. apply F. right. exact I.
Qed.

Lemma filter_map_filter {A B} (f : B -> bool) (g : A -> bool) (p : A -> B) l :
  (forall x, In x l -> g x = false -> f (p x) = false) ->
  List.filter f (map p (List.filter g l)) = List.filter f (map p l).
Proof.
  induction l as [|x l IH]; intros F; [reflexivity | ].
  cbn [List.filter map].
  assert (IH' := IH (fun y I => F y (or_intror I))).
  destruct (g x) eqn:G.
  - cbn [map List.filter]. rewrite IH'. reflexivity.
  - rewrite (F x (or_introl eq_refl) G). exact IH'.
Qed.

Section WithMenu.
Variables (w : World) (vm : RankedMenu).
Hypothesis M : menu w = Some vm.
Hypothesis Wf : menuWf w.

Lemma wf_fresh h e : In (h, e) (entries vm) -> h < nextHandle vm.
Proof. unfold menuWf in Wf. rewrite M in Wf. apply Wf. Qed.

Lemma wf_stored a h : sideBarMenu a w = Some h -> h < nextHandle vm.
Proof. unfold menuWf in Wf. rewrite M in Wf. apply Wf. Qed.

Lemma wf_owner a h e :
  In (h, e) (entries vm) -> isSideEntry a e = true <-> sideBarMenu a w = Some h.
Proof. unfold menuWf in Wf. rewrite M in Wf. apply Wf. Qed.

Lemma previousDisposed_own a :
  List.filter (isSideEntry a) (map snd (entries (previousDisposed a w vm))) = [].
Proof.
  apply filter_all_false. intros e I. apply in_map_iff in I as ([h e'] & <- & I).
  apply In_previousDisposed in I as [I N]. cbn [snd].
  destruct (isSideEntry a e') eqn:E; [ | reflexivity].
  apply (wf_owner a h e' I) in E. contradiction.
Qed.

Lemma previousDisposed_other a b :
  a <> b ->
  List.filter (isSideEntry b) (map snd (entries (previousDisposed a w vm)))
  = List.filter (isSideEntry b) (map snd (entries vm)).
Proof.
  intros N. unfold previousDisposed. destruct (sideBarMenu a w) as [h|] eqn:S;
    [ | reflexivity].
  cbn [dispose entries]. apply filter_map_filter.
  intros [h' e] I G. cbn [fst snd] in *.
  apply negb_false_iff, Nat.eqb_eq in G. subst h'.
  destruct (isSideEntry b e) eqn:E; [ | reflexivity].
  apply (wf_owner a h e I) in S. elim N. eapply isSideEntry_unique; eassumption.
Qed.

End WithMenu.

Lemma sideBarMenu_with_sideBarMenu a b h w :
  sideBarMenu b (with_sideBarMenu a h w) =
  if Area_eqb a b then Some h else sideBarMenu b w.
Proof. destruct a, b; reflexivity. Qed.

Lemma menu_with_sideBarMenu a h w : menu (with_sideBarMenu a h w) = menu w.
Proof. destruct a; reflexivity. Qed.

Lemma Area_eqb_eq a b : Area_eqb a b = true <-> a = b.
Proof. destruct a, b; cbn; split; intros E; try reflexivity; discriminate. Qed.

Lemma Area_eqb_neq a b : Area_eqb a b = false <-> a <> b.
Proof.
  rewrite <- Area_eqb_eq. destruct (Area_eqb a b); split; congruence.
Qed.

Lemma isSideEntry_rebuilt a b its :
  isSideEntry b (Submenu {| label := getSidebarLabel a; items := its |})
  = Area_eqb a b.
Proof. destruct a, b; reflexivity. Qed.

Lemma sideBarMenu_with_menu b vm w :
  sideBarMenu b (with_menu vm w) = sideBarMenu b w.
Proof. destruct b; reflexivity. Qed.

(** A rebuild keeps the bookkeeping well formed. *)
Lemma updateMenu_wf a w :
  menuWf w -> menuWf (updateMenu a (getSidebarLabel a) w).
Proof.
  intros Wf. destruct (menu w) as [vm|] eqn:M;
    [ | unfold updateMenu; rewrite M; exact Wf].
  rewrite (updateMenu_spec a w vm M).
  destruct (widgets (handler a (shell w))) as [|x ws].
  - unfold menuWf. cbn [menu with_menu].
    rewrite nextHandle_previousDisposed. split; [ | split].
    + intros h e I. apply In_previousDisposed in I as [I _].
      exact (wf_fresh w vm M Wf h e I).
    + intros b h. rewrite sideBarMenu_with_menu. apply (wf_stored w vm M Wf).
    + intros b h e I. rewrite sideBarMenu_with_menu.
      apply In_previousDisposed in I as [I _].
      exact (wf_owner w vm M Wf b h e I).
  - unfold menuWf. rewrite menu_with_sideBarMenu. cbn [menu with_menu].
    cbn [entries nextHandle]. split; [ | split].
    + intros h e I. apply in_app_iff in I as [I|[[= <- <-]|[]]]; [ | lia].
      apply In_previousDisposed in I as [I _].
      pose proof (wf_fresh w vm M Wf h e I). lia.
    + intros b h. rewrite sideBarMenu_with_sideBarMenu, sideBarMenu_with_menu.
      destruct (Area_eqb a b); [intros [= <-]; lia | ].
      intros S. pose proof (wf_stored w vm M Wf b h S). lia.
    + intros b h e I.
      rewrite sideBarMenu_with_sideBarMenu, sideBarMenu_with_menu.
      apply in_app_iff in I as [I|[[= <- <-]|[]]].
      * apply In_previousDisposed in I as [I N].
        pose proof (wf_fresh w vm M Wf h e I) as Fr.
        pose proof (wf_owner w vm M Wf b h e I) as O.
        destruct (Area_eqb a b) eqn:A; [ | exact O].
        apply Area_eqb_eq in A. subst b. split.
        -- intros E. apply O in E. contradiction.
        -- intros [= <-]. lia.
      * rewrite isSideEntry_rebuilt.
        destruct (Area_eqb a b) eqn:A; [split; reflexivity | ].
        split; [discriminate | ].
        intros S. pose proof (wf_stored w vm M Wf b _ S). lia.
Qed.

(** After a rebuild the side has exactly the entries built from its
    widgets. *)
Lemma updateMenu_synced a w :
  menuWf w -> menu w <> None ->
  sideEntries a (updateMenu a (getSidebarLabel a) w)
  = rebuilt a (widgets (handler a (shell w))).
Proof.
  intros Wf N. destruct (menu w) as [vm|] eqn:M; [clear N | congruence].
  rewrite (updateMenu_spec a w vm M), rebuilt_spec. unfold sideEntries.
  destruct (widgets (handler a (shell w))) as [|x ws].
  - cbn [menu with_menu]. apply (previousDisposed_own w vm M Wf).
  - rewrite menu_with_sideBarMenu. cbn [menu with_menu entries].
    rewrite List.map_app, List.filter_app, (previousDisposed_own w vm M Wf).
    cbn [map snd List.filter app]. rewrite isSideEntry_rebuilt.
    rewrite (proj2 (Area_eqb_eq a a) eq_refl). reflexivity.
Qed.

(** A rebuild of one side leaves the entries of the other side alone. *)
Lemma updateMenu_other a b w :
  menuWf w -> a <> b ->
  sideEntries b (updateMenu a (getSidebarLabel a) w) = sideEntries b w.
Proof.
  intros Wf N. destruct (menu w) as [vm|] eqn:M;
    [ | unfold updateMenu; rewrite M; reflexivity].
  rewrite (updateMenu_spec a w vm M). unfold sideEntries. rewrite M.
  destruct (widgets (handler a (shell w))) as [|x ws].
  - cbn [menu with_menu]. apply (previousDisposed_other w vm M Wf a b N).
  - rewrite menu_with_sideBarMenu. cbn [menu with_menu entries].
    rewrite List.map_app, List.filter_app, (previousDisposed_other w vm M Wf a b N).
    cbn [map snd List.filter]. rewrite isSideEntry_rebuilt.
    rewrite (proj2 (Area_eqb_neq a b) N). apply app_nil_r.
Qed.

(** A rebuild removes the handle stored before it from the View menu. *)
Lemma updateMenu_disposes a w h vm' :
  menuWf w -> sideBarMenu a w = Some h ->
  menu (updateMenu a (getSidebarLabel a) w) = Some vm' ->
  forall e, ~ In (h, e) (entries vm').
Proof.
  intros Wf S M' e I. destruct (menu w) as [vm|] eqn:M;
    [ | unfold updateMenu in M'; rewrite M in M'; congruence].
  rewrite (updateMenu_spec a w vm M) in M'.
  destruct (widgets (handler a (shell w))) as [|x ws].
  - cbn [menu with_menu] in M'. injection M' as <-.
    apply In_previousDisposed in I as [_ N]. contradiction.
  - rewrite menu_with_sideBarMenu in M'. cbn [menu with_menu] in M'.
    injection M' as <-. cbn [entries] in I.
    apply in_app_iff in I as [I|[[= <- <-]|[]]].
    + apply In_previousDisposed in I as [_ N]. contradiction.
    + pose proof (wf_stored w vm M Wf a _ S). lia.
Qed.

Lemma updateMenu_frame a l w :
  shell (updateMenu a l w) = shell w /\
  palette (updateMenu a l w) = palette w /\
  sideBarPalette (updateMenu a l w) = sideBarPalette w /\
  restored (updateMenu a l w) = restored w /\
  (menu (updateMenu a l w) = None <-> menu w = None).
Proof.
  unfold updateMenu. destruct (menu w) as [vm|] eqn:M;
    [ | rewrite M; repeat split; trivial].
  destruct (populate a _ _) as [newMenu []].
  - cbn. destruct a; cbn; rewrite ?M; repeat split; trivial; discriminate.
  - cbn. rewrite ?M. repeat split; trivial; discriminate.
Qed.

End MenuFacts.

(** ** Reachable worlds of the sidebar plugin *)

Section Reachable.
Import SideBar SideBarInv.

Lemma sidebarUpdated_menu a widget action w :
  menu (sidebarUpdated a widget action w)
  = menu (match menu w with
          | Some _ => updateMenu a (getSidebarLabel a) w
          | None => w
          end).
Proof.
  unfold sidebarUpdated.
  destruct (sideBarPalette _); [destruct action | ]; reflexivity.
Qed.

Lemma sidebarUpdated_sideEntries a b widget action w :
  sideEntries b (sidebarUpdated a widget action w)
  = sideEntries b (updateMenu a (getSidebarLabel a) w).
Proof.
  unfold sideEntries. rewrite sidebarUpdated_menu.
  destruct (menu w) eqn:M; [reflexivity | ].
  unfold updateMenu. rewrite !M. reflexivity.
Qed.

Lemma sidebarUpdated_shell a widget action w :
  shell (sidebarUpdated a widget action w) = shell w.
Proof.
  unfold sidebarUpdated.
  assert (E : shell (match menu w with
                     | Some _ => updateMenu a (getSidebarLabel a) w
                     | None => w
                     end) = shell w).
  { destruct (menu w); [apply updateMenu_frame | reflexivity]. }
  destruct (sideBarPalette _); [destruct action | ]; exact E.
Qed.

Lemma sidebarUpdated_wf a widget action w :
  menuWf w -> menuWf (sidebarUpdated a widget action w).
Proof.
  intros Wf. unfold sidebarUpdated.
  assert (Wf' : menuWf (match menu w with
                        | Some _ => updateMenu a (getSidebarLabel a) w
                        | None => w
                        end)).
  { destruct (menu w); [apply updateMenu_wf, Wf | exact Wf]. }
  destruct (sideBarPalette _); [destruct action | ]; exact Wf'.
Qed.

Lemma onRestored_wf w : menuWf w -> menuWf (onRestored w).
Proof.
  intros Wf. unfold onRestored.
  assert (Wf' : menuWf (match menu w with
                        | Some _ =>
                            updateMenu Right (getSidebarLabel Right)
                              (updateMenu Left (getSidebarLabel Left) w)
                        | None => w
                        end)).
  { destruct (menu w); [apply updateMenu_wf, updateMenu_wf, Wf | exact Wf]. }
  destruct (palette _); exact Wf'.
Qed.

Lemma foreign_wf tag vm w :
  menu w = Some vm -> menuWf w ->
  menuWf (with_menu (snd (addItem (Foreign tag) vm)) w).
Proof.
  intros M Wf. unfold menuWf. cbn [menu with_menu addItem snd entries nextHandle].
  split; [ | split].
  - intros h e I. apply in_app_iff in I as [I|[[= <- <-]|[]]]; [ | lia].
    pose proof (wf_fresh w vm M Wf h e I). lia.
  - intros b h. rewrite sideBarMenu_with_menu. intros S.
    pose proof (wf_stored w vm M Wf b h S). lia.
  - intros b h e I. rewrite sideBarMenu_with_menu.
    apply in_app_iff in I as [I|[[= <- <-]|[]]].
    + exact (wf_owner w vm M Wf b h e I).
    + cbn [isSideEntry]. split; [discriminate | ].
      intros S. pose proof (wf_stored w vm M Wf b _ S). lia.
Qed.

Lemma step_wf ev w : menuWf w -> menuWf (step ev w).
Proof.
  intros Wf. destruct ev as [|a widget|a widget|args|tag]; cbn [step].
  - destruct (restored w); [exact Wf | apply onRestored_wf, Wf].
  - cbn [restored with_shell].
    destruct (restored w); [apply sidebarUpdated_wf | ]; exact Wf.
  - cbn [restored with_shell].
    destruct (restored w); [apply sidebarUpdated_wf | ]; exact Wf.
  - exact Wf.
  - destruct (menu w) as [vm|] eqn:M; [apply foreign_wf; assumption | exact Wf].
Qed.

Lemma boot_wf sh hasMenu hasPalette : menuWf (boot sh hasMenu hasPalette).
Proof.
  unfold menuWf, boot. cbn [menu activate].
  destruct hasMenu; [ | exact I].
  split; [ | split].
  - intros h e [].
  - intros [] h; discriminate.
  - intros b h e [].
Qed.


Lemma run_wf evs w : menuWf w -> menuWf (run evs w).
Proof.
  revert w. induction evs as [|ev evs IH]; intros w Wf; [exact Wf | ].
  unfold run. cbn [foldl]. apply IH, step_wf, Wf.
Qed.

Lemma sidebarUpdated_menu_some a widget action w :
  menu w <> None -> menu (sidebarUpdated a widget action w) <> None.
Proof.
  intros N. rewrite sidebarUpdated_menu.
  destruct (menu w) eqn:M; [ | congruence].
  intros E. apply updateMenu_frame in E. congruence.
Qed.

(** The main menu stays once it is there. *)
Lemma step_menu ev w : menu w <> None -> menu (step ev w) <> None.
Proof.
  intros N. destruct ev as [|a widget|a widget|args|tag]; cbn [step].
  - destruct (restored w); [exact N | ].
    unfold onRestored. cbn [menu].
    destruct (menu w) eqn:M; [ | congruence].
    assert (menu (updateMenu Right (getSidebarLabel Right)
                    (updateMenu Left (getSidebarLabel Left) w)) <> None) as N'.
    { intros E. apply updateMenu_frame, updateMenu_frame in E. congruence. }
    destruct (palette _); exact N'.
  - cbn [restored with_shell]. destruct (restored w); [ | exact N].
    apply sidebarUpdated_menu_some. exact N.
  - cbn [restored with_shell]. destruct (restored w); [ | exact N].
    apply sidebarUpdated_menu_some. exact N.
  - exact N.
  - destruct (menu w); [discriminate | congruence].
Qed.


Lemma sidebarUpdated_sideBarPalette a widget action w :
  sideBarPalette (sidebarUpdated a widget action w) = sideBarPalette w.
Proof.
  unfold sidebarUpdated.
  assert (sideBarPalette
            (match menu w with
             | Some _ => updateMenu a (getSidebarLabel a) w
             | None => w
             end) = sideBarPalette w) as E.
  { destruct (menu w); [apply updateMenu_frame | reflexivity]. }
  destruct (sideBarPalette (match menu w with
                            | Some _ => updateMenu a (getSidebarLabel a) w
                            | None => w
                            end)) eqn:S;
    [destruct action | ]; cbn [sideBarPalette with_palette]; congruence.
Qed.

(** The variable [sideBarPalette] of [activate] is never assigned. *)
Lemma step_sideBarPalette ev w :
  sideBarPalette w = None -> sideBarPalette (step ev w) = None.
Proof.
  intros N. destruct ev as [|a widget|a widget|args|tag]; cbn [step].
  - destruct (restored w); [exact N | ].
    unfold onRestored. cbn [sideBarPalette].
    assert (sideBarPalette
              (match menu w with
               | Some _ =>
                   updateMenu Right (getSidebarLabel Right)
                     (updateMenu Left (getSidebarLabel Left) w)
               | None => w
               end) = None) as N'.
    { destruct (menu w); [ | exact N].
      destruct (updateMenu_frame Right (getSidebarLabel Right)
                  (updateMenu Left (getSidebarLabel Left) w)) as (_ & _ & -> & _).
      destruct (updateMenu_frame Left (getSidebarLabel Left) w) as (_ & _ & -> & _).
      exact N. }
    destruct (palette _); exact N'.
  - cbn [restored with_shell]. destruct (restored w); [ | exact N].
    rewrite sidebarUpdated_sideBarPalette. exact N.
  - cbn [restored with_shell]. destruct (restored w); [ | exact N].
    rewrite sidebarUpdated_sideBarPalette. exact N.
  - exact N.
  - destruct (menu w); exact N.
Qed.

Lemma run_sideBarPalette evs w :
  sideBarPalette w = None -> sideBarPalette (run evs w) = None.
Proof.
  revert w. induction evs as [|ev evs IH]; intros w N; [exact N | ].
  unfold run. cbn [foldl]. apply IH, step_sideBarPalette, N.
Qed.

(** With the variable unset, the handler leaves the palette alone. *)
Lemma sidebarUpdated_palette a widget action w :
  sideBarPalette w = None ->
  palette (sidebarUpdated a widget action w) = palette w.
Proof.
  intros N. unfold sidebarUpdated.
  assert (sideBarPalette
            (match menu w with
             | Some _ => updateMenu a (getSidebarLabel a) w
             | None => w
             end) = None) as ->.
  { destruct (menu w); [ | exact N].
    destruct (updateMenu_frame a (getSidebarLabel a) w) as (_ & _ & -> & _).
    exact N. }
  destruct (menu w); [apply updateMenu_frame | reflexivity].
Qed.

Lemma rebuilt_length a ws : length (rebuilt a ws) <= 1.
Proof. destruct ws; cbn; lia. Qed.

(** At most one submenu per side, in every step. *)
Lemma updateMenu_at_most_one a w :
  menuWf w ->
  (forall b, length (sideEntries b w) <= 1) ->
  forall b, length (sideEntries b (updateMenu a (getSidebarLabel a) w)) <= 1.
Proof.
  intros Wf L b. destruct (menu w) eqn:M.
  - destruct (Area_eqb a b) eqn:E.
    + apply Area_eqb_eq in E. subst b.
      rewrite updateMenu_synced by (assumption || congruence).
      apply rebuilt_length.
    + apply Area_eqb_neq in E. rewrite updateMenu_other by assumption. apply L.
  - unfold updateMenu. rewrite M. apply L.
Qed.

Lemma step_at_most_one ev w :
  menuWf w ->
  (forall b, length (sideEntries b w) <= 1) ->
  forall b, length (sideEntries b (step ev w)) <= 1.
Proof.
  intros Wf L. destruct ev as [|a widget|a widget|args|tag]; cbn [step].
  - destruct (restored w); [exact L | ]. intros b.
    assert (length (sideEntries b
              (match menu w with
               | Some _ =>
                   updateMenu Right (getSidebarLabel Right)
                     (updateMenu Left (getSidebarLabel Left) w)
               | None => w
               end)) <= 1) as L'.
    { destruct (menu w); [ | apply L].
      apply updateMenu_at_most_one;
        [apply updateMenu_wf, Wf | apply updateMenu_at_most_one; assumption]. }
    unfold onRestored. destruct (palette _); exact L'.
  - cbn [restored with_shell]. destruct (restored w); [ | exact L].
    intros b. rewrite sidebarUpdated_sideEntries.
    apply updateMenu_at_most_one; [exact Wf | exact L].
  - cbn [restored with_shell]. destruct (restored w); [ | exact L].
    intros b. rewrite sidebarUpdated_sideEntries.
    apply updateMenu_at_most_one; [exact Wf | exact L].
  - exact L.
  - destruct (menu w) as [vm|] eqn:M; [ | exact L].
    intros b. specialize (L b). unfold sideEntries in *. rewrite M in L.
    cbn [menu with_menu addItem snd entries].
    rewrite List.map_app, List.filter_app. cbn [map snd List.filter isSideEntry].
    rewrite app_nil_r. exact L.
Qed.

Lemma run_at_most_one evs w :
  menuWf w ->
  (forall b, length (sideEntries b w) <= 1) ->
  forall b, length (sideEntries b (run evs w)) <= 1.
Proof.
  revert w. induction evs as [|ev evs IH]; intros w Wf L; [exact L | ].
  unfold run. cbn [foldl].
  apply IH; [apply step_wf, Wf | apply step_at_most_one; assumption].
Qed.

End Reachable.

(** C10: after any sequence of events (panel adds and removes among them),
    each side has at most one submenu in the View menu, and a rebuild
    removes from the View menu the handle that was stored for the side
    before it. *)
Theorem C10_at_most_one_submenu_per_side
    (sh : SideBar.NotebookShell) (hasMenu hasPalette : bool)
    (evs : list SideBar.Event) (a : SideBar.Area) :
  let w := SideBar.run evs (SideBar.boot sh hasMenu hasPalette) in
  length (SideBar.sideEntries a w) <= 1 /\
  (forall h vm',
     SideBar.sideBarMenu a w = Some h ->
     SideBar.menu (SideBar.updateMenu a (SideBar.getSidebarLabel a) w) = Some vm' ->
     forall e, ~ In (h, e) (SideBar.entries vm')).
Proof.
  intros w.
  assert (Wf : SideBarInv.menuWf w) by apply run_wf, boot_wf.
  split.
  - apply run_at_most_one; [apply boot_wf | ].
    intros b. unfold SideBar.sideEntries, SideBar.boot. cbn [SideBar.menu SideBar.activate].
    destruct hasMenu; cbn; lia.
  - intros h vm' S M'. eapply updateMenu_disposes; eassumption.
Qed.

(** C2: the code does not do what the claim says.  The variable
    [sideBarPalette] the handler tests is never assigned (the palette object
    is bound to a constant of the restored callback), so in every reachable
    world it is null and neither a panel add nor a panel remove changes the
    entries of the command palette. *)
Theorem C2_palette_not_updated_on_panel_events
    (sh : SideBar.NotebookShell) (hasMenu : bool)
    (evs : list SideBar.Event) (a : SideBar.Area) (widget : SideBar.Widget) :
  let w := SideBar.run evs (SideBar.boot sh hasMenu true) in
  SideBar.sideBarPalette w = None /\
  SideBar.palette (SideBar.step (SideBar.WidgetAdded a widget) w)
  = SideBar.palette w /\
  SideBar.palette (SideBar.step (SideBar.WidgetRemoved a widget) w)
  = SideBar.palette w.
Proof.
  intros w.
  assert (N : SideBar.sideBarPalette w = None)
    by (apply run_sideBarPalette; reflexivity).
  split; [exact N | ].
  split; cbn [SideBar.step SideBar.restored SideBar.with_shell];
    (destruct (SideBar.restored w); [ | reflexivity]);
    rewrite sidebarUpdated_palette by exact N; reflexivity.
Qed.

(** The failing input of C2: a palette is present, the application is
    restored with no panel, then panel [filebrowser] is added on the left and
    removed again.  After the add the palette has no entry for it, where
    [SideBarPalette_addItem] would have given one. *)
Example palette_misses_added_panel :
  let W := {| SideBar.w_id := "filebrowser"; SideBar.w_caption := "Files" |} in
  let side := {| SideBar.collapsed := true; SideBar.currentWidget := None;
                 SideBar.widgets := [] |} in
  let sh := {| SideBar.leftHandler := side; SideBar.rightHandler := side;
               SideBar.shellCurrentWidget := None; SideBar.activated := [] |} in
  let w := SideBar.run [SideBar.Restored; SideBar.WidgetAdded SideBar.Left W]
             (SideBar.boot sh true true) in
  SideBar.palette w = Some [] /\
  SideBar.widgets (SideBar.leftHandler (SideBar.shell w)) = [W] /\
  SideBar.SideBarPalette_addItem W SideBar.Left [] = [("filebrowser", SideBar.Left)].
Proof. vm_compute. repeat split. Qed.

(** A panel present at restoration does get its entry, and keeps it when
    the panel is removed. *)
Example palette_keeps_removed_panel :
  let W := {| SideBar.w_id := "filebrowser"; SideBar.w_caption := "Files" |} in
  let side := {| SideBar.collapsed := true; SideBar.currentWidget := None;
                 SideBar.widgets := [] |} in
  let sh := {| SideBar.leftHandler := side; SideBar.rightHandler := side;
               SideBar.shellCurrentWidget := None; SideBar.activated := [] |} in
  let w := SideBar.run [SideBar.WidgetAdded SideBar.Left W; SideBar.Restored;
                        SideBar.WidgetRemoved SideBar.Left W]
             (SideBar.boot sh true true) in
  SideBar.palette w = Some [("filebrowser", SideBar.Left)] /\
  SideBar.widgets (SideBar.leftHandler (SideBar.shell w)) = [] /\
  SideBar.sideEntries SideBar.Left w = [].
Proof. vm_compute. repeat split. Qed.

(** * Further properties *)

(** ** The document pattern, in general *)

Section RegexFacts.
Import Aux.

Lemma length_append (p t : string) :
  String.length (p ++ t)%string = String.length p + String.length t.
Proof. induction p as [|c p IH]; [reflexivity | ]. simpl. f_equal. exact IH. Qed.

Lemma prefix_append (p t : string) : prefix (String.length p) (p ++ t)%string = p.
Proof.
  induction p as [|c p IH]; [destruct t; reflexivity | ].
  simpl. f_equal. exact IH.
Qed.

Lemma consumed_append (p t : string) : consumed (p ++ t)%string t = p.
Proof.
  unfold consumed. rewrite length_append.
  replace (String.length p + String.length t - String.length t)
    with (String.length p) by lia.
  apply prefix_append.
Qed.

Lemma m_Lit_cases l s c :
  (exists t, s = (l ++ t)%string /\ m (Lit l) s c = [(t, c)]) \/
  ((forall t, s <> (l ++ t)%string) /\ m (Lit l) s c = []).
Proof.
  revert s. induction l as [|a l IH]; intros s.
  - left. exists s. split; reflexivity.
  - cbn [Lit m]. destruct s as [|b s].
    + right. split; [intros t; discriminate | reflexivity].
    + destruct (Ascii.eqb a b) eqn:E.
      * apply Ascii.eqb_eq in E. subst b. cbn [flat_map fst snd].
        rewrite app_nil_r.
        destruct (IH s) as [(t & -> & M)|(N & M)].
        -- left. exists t. split; [reflexivity | exact M].
        -- right. split; [ | exact M].
           intros t [= E]. exact (N t E).
      * right. split; [ | reflexivity].
        intros t [= E' _]. subst b. rewrite Ascii.eqb_refl in E. discriminate.
Qed.

Lemma m_Lit_append l t c : m (Lit l) (l ++ t)%string c = [(t, c)].
Proof.
  destruct (m_Lit_cases l (l ++ t)%string c) as [(t' & E & M)|(N & _)].
  - rewrite M. assert (t' = t) as ->; [ | reflexivity].
    clear M. induction l as [|a l IH].
    + change (t = t') in E. congruence.
    + change (String a (l ++ t)%string = String a (l ++ t')%string) in E.
      injection E as E. apply IH, E.
  - elim (N t). reflexivity.
Qed.

Lemma head_cons {A} (l : list A) x : head l = Some x -> exists tl, l = x :: tl.
Proof. destruct l; intros [= <-]; eauto. Qed.

Lemma m_Star_Any_head s c :
  head (m (Star Any) s c) = Some (dropLine s, c).
Proof.
  cbn [m].
  set (star := fix star (fuel : nat) (s : string) (c : captures) {struct fuel} :=
         match fuel with
         | 0 => [(s, c)]
         | S fuel' =>
             flat_map
               (fun x => if Nat.ltb (String.length (fst x)) (String.length s)
                         then star fuel' (fst x) (snd x) else [])
               match s with
               | EmptyString => []
               | String b s' => if isLineTerminator b then [] else [(s', c)]
               end ++ [(s, c)]
         end).
  assert (G : forall fuel s, String.length s <= fuel ->
              head (star fuel s c) = Some (dropLine s, c)).
  { clear s. induction fuel as [|fuel IH]; intros s L.
    - destruct s; [reflexivity | cbn in L; lia].
    - cbn [star]. destruct s as [|b s]; [reflexivity | ].
      cbn [dropLine]. destruct (isLineTerminator b); [reflexivity | ].
      cbn [flat_map fst snd String.length].
      rewrite (proj2 (Nat.ltb_lt _ _)) by lia.
      rewrite app_nil_r. cbn in L.
      specialize (IH s ltac:(lia)).
      destruct (star fuel s c); [discriminate | exact IH]. }
  apply G. lia.
Qed.


Lemma take_drop_line u : (takeLine u ++ dropLine u)%string = u.
Proof.
  induction u as [|c u IH]; [reflexivity | ].
  cbn [takeLine dropLine]. destruct (isLineTerminator c); [reflexivity | ].
  change (String c (takeLine u ++ dropLine u)%string = String c u).
  rewrite IH. reflexivity.
Qed.

Lemma consumed_line u : consumed u (dropLine u) = takeLine u.
Proof.
  rewrite <- (take_drop_line u) at 1. apply consumed_append.
Qed.

Lemma takeLine_noLineTerminator u : noLineTerminator (takeLine u) = true.
Proof.
  induction u as [|c u IH]; [reflexivity | ].
  cbn [takeLine]. destruct (isLineTerminator c) eqn:E; [reflexivity | ].
  cbn [noLineTerminator]. rewrite E, IH. reflexivity.
Qed.

Lemma takeLine_id u : noLineTerminator u = true -> takeLine u = u.
Proof.
  induction u as [|c u IH]; [reflexivity | ].
  cbn [noLineTerminator takeLine]. intros N.
  apply andb_true_iff in N as [N1 N2]. apply negb_true_iff in N1.
  rewrite N1, IH by assumption. reflexivity.
Qed.

Lemma m_Seq_eq r1 r2 s c :
  m (Seq r1 r2) s c = flat_map (fun x => m r2 (fst x) (snd x)) (m r1 s c).
Proof. reflexivity. Qed.

Lemma m_Group_eq n r s c :
  m (Group n r) s c
  = map (fun x => (fst x, <[n := consumed s (fst x)]> (snd x))) (m r s c).
Proof. reflexivity. Qed.

Lemma m_Alt_eq r1 r2 s c : m (Alt r1 r2) s c = m r1 s c ++ m r2 s c.
Proof. reflexivity. Qed.

Lemma m_Chr_slash s c : m (Chr "/") (String "/" s) c = [(s, c)].
Proof. reflexivity. Qed.

(** The tail of [TREE_PATTERN] after group 1. *)
Lemma m_tail_head u c :
  head (m (Seq (Chr "/") (Group 2 (Star Any))) (String "/" u) c)
  = Some (dropLine u, <[2 := takeLine u]> c).
Proof.
  rewrite m_Seq_eq, m_Chr_slash. cbn [flat_map fst snd]. rewrite app_nil_r.
  rewrite m_Group_eq.
  pose proof (m_Star_Any_head u c) as Hd.
  destruct (m (Star Any) u c) as [|x l]; [discriminate | ].
  injection Hd as ->. cbn [map head fst snd]. rewrite consumed_line. reflexivity.
Qed.

Lemma m_tail_shape s c :
  m (Seq (Chr "/") (Group 2 (Star Any))) s c <> [] -> exists u, s = String "/" u.
Proof.
  rewrite m_Seq_eq. destruct s as [|b s]; [cbn; congruence | ].
  slash_cases b; [eauto | ]. cbn [m]. rewrite E. cbn. congruence.
Qed.

Lemma m_group1 s1 :
  (exists g t, isRoute g /\ s1 = (g ++ t)%string /\
     m (Group 1 (Alt (Lit "notebooks") (Lit "edit"))) s1 ∅ = [(t, <[1 := g]> ∅)])
  \/ m (Group 1 (Alt (Lit "notebooks") (Lit "edit"))) s1 ∅ = [].
Proof.
  rewrite m_Group_eq, m_Alt_eq.
  destruct (m_Lit_cases "notebooks" s1 ∅) as [(t & E & M)|(N & M)]; rewrite M.
  - left. exists "notebooks", t. split; [left; reflexivity | ].
    split; [exact E | ].
    assert (m (Lit "edit") s1 ∅ = []) as -> by (rewrite E; reflexivity).
    cbn [app map fst snd]. rewrite E, consumed_append. reflexivity.
  - destruct (m_Lit_cases "edit" s1 ∅) as [(t & E & M')|(N' & M')]; rewrite M'.
    + left. exists "edit", t. split; [right; reflexivity | ].
      split; [exact E | ].
      cbn [app map fst snd]. rewrite E, consumed_append. reflexivity.
    + right. reflexivity.
Qed.

Lemma route_split g t g' t' :
  isRoute g -> isRoute g' -> (g ++ t)%string = (g' ++ t')%string ->
  g = g' /\ t = t'.
Proof.
  intros [-> | ->] [-> | ->] E; cbv [append] in E;
    try discriminate; injection E as ->; split; reflexivity.
Qed.

(** One attempt of [TREE_PATTERN] at the start of [s]. *)
Lemma m_TREE_PATTERN_cases s :
  (exists g u, isRoute g /\ s = String "/" (g ++ String "/" u) /\
     head (m TREE_PATTERN s ∅)
     = Some (dropLine u, <[2 := takeLine u]> (<[1 := g]> ∅)))
  \/ ((forall g u, isRoute g -> s <> String "/" (g ++ String "/" u)) /\
      m TREE_PATTERN s ∅ = []).
Proof.
  unfold TREE_PATTERN. rewrite m_Seq_eq.
  destruct s as [|b s]; [right; split; [intros; discriminate | reflexivity] | ].
  slash_cases b.
  2:{ right. split.
      - intros g u _ [= -> _]. rewrite Ascii.eqb_refl in E. discriminate.
      - cbn [m]. rewrite E. reflexivity. }
  rewrite m_Chr_slash. cbn [flat_map fst snd]. rewrite app_nil_r, m_Seq_eq.
  destruct (m_group1 s) as [(g & t & R & E & M)|M]; rewrite M.
  - cbn [flat_map fst snd]. rewrite app_nil_r.
    destruct (m (Seq (Chr "/") (Group 2 (Star Any))) t (<[1 := g]> ∅)) eqn:T.
    + right. split; [ | reflexivity].
      intros g' u' R' [= E']. rewrite E in E'.
      destruct (route_split _ _ _ _ R R' E') as [_ ->].
      pose proof (m_tail_head u' (<[1 := g]> ∅)) as Hd.
      rewrite T in Hd. discriminate.
    + rewrite <- T. assert (exists u, t = String "/" u) as [u ->].
      { apply (m_tail_shape t (<[1 := g]> ∅)). rewrite T. discriminate. }
      left. exists g, u. split; [exact R | ]. split; [rewrite E; reflexivity | ].
      apply m_tail_head.
  - right. split; [ | reflexivity].
    intros g u R [= E].
    rewrite m_Group_eq, m_Alt_eq in M.
    destruct R as [-> | ->]; rewrite E in M.
    + rewrite (m_Lit_append "notebooks") in M. discriminate.
    + rewrite (m_Lit_append "edit") in M.
      destruct (m (Lit "notebooks") _ ∅); discriminate.
Qed.

Lemma holdsDocumentRoute_here g u :
  isRoute g -> holdsDocumentRoute (String "/" (g ++ String "/" u)) = true.
Proof. intros [-> | ->]; reflexivity. Qed.

Lemma startsWith_spec p s :
  startsWith p s = true <-> exists t, s = (p ++ t)%string.
Proof.
  revert s. induction p as [|a p IH]; intros s.
  - split; [intros _; exists s; reflexivity | destruct s; reflexivity].
  - destruct s as [|b s]; cbn [startsWith].
    + split; [discriminate | intros [t [=]]].
    + rewrite andb_true_iff, Ascii.eqb_eq, IH. split.
      * intros [-> [t ->]]. exists t. reflexivity.
      * intros [t E].
        change (String b s = String a (p ++ t)%string) in E.
        injection E as -> ->. eauto.
Qed.

Lemma holdsDocumentRoute_cons b s :
  holdsDocumentRoute (String b s) = true <->
  (exists g u, isRoute g /\ String b s = String "/" (g ++ String "/" u)) \/
  holdsDocumentRoute s = true.
Proof.
  cbn [holdsDocumentRoute]. rewrite !orb_true_iff, !startsWith_spec. split.
  - intros [[[t E]|[t E]]|H]; [left | left | right; exact H].
    + exists "notebooks", t. split; [left; reflexivity | exact E].
    + exists "edit", t. split; [right; reflexivity | exact E].
  - intros [(g & u & [-> | ->] & E)|H]; [left; left | left; right | right; exact H];
      exists u; exact E.
Qed.

Lemma route_assoc g a b :
  String "/" (g ++ String "/" (a ++ b))
  = (String "/" (g ++ String "/" a) ++ b)%string.
Proof.
  change (String "/" (g ++ String "/" a) ++ b)%string
    with (String "/" ((g ++ String "/" a) ++ b)%string).
  f_equal. induction g as [|c g IH]; [reflexivity | ].
  change (String c (g ++ String "/" (a ++ b))
          = String c ((g ++ String "/" a) ++ b)%string).
  f_equal. exact IH.
Qed.

(** [s.match(TREE_PATTERN)] finds nothing exactly when [s] holds neither
    route; what it finds is a route in group 1 and the rest of the line in
    group 2. *)
Lemma exec_TREE_PATTERN_spec s :
  match exec TREE_PATTERN s with
  | Some r =>
      exists pre g u,
        s = (pre ++ String "/" (g ++ String "/" u))%string /\ isRoute g /\
        groups r = <[2 := takeLine u]> (<[1 := g]> ∅) /\
        whole r = String "/" (g ++ String "/" (takeLine u)) /\
        holdsDocumentRoute s = true
  | None => holdsDocumentRoute s = false
  end.
Proof.
  induction s as [|b s IH].
  - cbn [exec]. destruct (m_TREE_PATTERN_cases "") as [(g & u & _ & E & _)|(_ & ->)];
      [discriminate | reflexivity].
  - cbn [exec].
    destruct (m_TREE_PATTERN_cases (String b s)) as [(g & u & R & E & Hd)|(N & ->)].
    + apply head_cons in Hd as [tl ->].
      exists "", g, u. split; [exact E | ]. split; [exact R | ].
      split; [reflexivity | ]. split.
      * cbn [whole]. rewrite E.
        rewrite <- (take_drop_line u) at 1. rewrite route_assoc.
        apply consumed_append.
      * rewrite E. apply holdsDocumentRoute_here, R.
    + destruct (exec TREE_PATTERN s) as [r|].
      * destruct IH as (pre & g & u & E & R & G & W & Hh).
        exists (String b pre), g, u. split; [rewrite E; reflexivity | ].
        repeat split; try assumption.
        apply holdsDocumentRoute_cons. right. exact Hh.
      * destruct (holdsDocumentRoute (String b s)) eqn:Hh; [ | reflexivity].
        apply holdsDocumentRoute_cons in Hh as [(g & u & R & E)|Hh];
          [elim (N g u R E) | congruence].
Qed.

End RegexFacts.

Section PatternUse.
Import Aux.

Lemma exec_TREE_PATTERN_at_route g u :
  isRoute g ->
  exists r, exec TREE_PATTERN (String "/" (g ++ String "/" u)) = Some r /\
            groups r = <[2 := takeLine u]> (<[1 := g]> ∅).
Proof.
  intros R. cbn [exec].
  destruct (m_TREE_PATTERN_cases (String "/" (g ++ String "/" u)))
    as [(g' & u' & R' & [= E] & Hd)|(N & _)].
  - destruct (route_split _ _ _ _ R R' E) as [<- [= <-]].
    apply head_cons in Hd as [tl ->]. eexists. split; reflexivity.
  - elim (N g u R). reflexivity.
Qed.

End PatternUse.

(** X1: [TREE_PATTERN] finds a match exactly in the paths that hold
    [/notebooks/] or [/edit/] somewhere; group 1 is then that route name and
    group 2 the rest of the line after it. *)
Theorem TREE_PATTERN_matches_document_routes (s : string) :
  test TREE_PATTERN s = Aux.holdsDocumentRoute s /\
  (forall r, exec TREE_PATTERN s = Some r ->
     exists pre g u,
       s = (pre ++ String "/" (g ++ String "/" u))%string /\
       Aux.isRoute g /\
       group 1 (exec TREE_PATTERN s) = Some g /\
       group 2 (exec TREE_PATTERN s) = Some (Aux.takeLine u) /\
       Aux.noLineTerminator (Aux.takeLine u) = true).
Proof.
  pose proof (exec_TREE_PATTERN_spec s) as Sp. unfold test.
  destruct (exec TREE_PATTERN s) as [r|].
  - destruct Sp as (pre & g & u & E & R & G & W & Hh). split; [congruence | ].
    intros r' [= <-]. exists pre, g, u. cbn [group]. rewrite G.
    repeat split; try assumption.
    apply takeLine_noLineTerminator.
  - split; [congruence | discriminate].
Qed.

Section OpenerMore.
Import Opener Aux.
Context `{Platform}.

Lemma execute_no_match args w :
  group 2 (exec TREE_PATTERN (path args)) = None -> execute args w = (w, Fulfilled tt).
Proof. intros G. unfold execute. rewrite G. reflexivity. Qed.

End OpenerMore.

(** X2: the opener command opens at most one document per execution, under
    the name the captured path decodes to, with the notebook factory exactly
    when that name has the extension [.ipynb]; it asks for the notebook panel
    settings at most once, and only for such a name; and for a path that
    holds neither route it returns at once, fulfilled, with nothing opened or
    loaded. *)
Theorem opener_opens_at_most_one_document `{Platform}
    (args : ILocation) (w : Opener.World) :
  let w' := fst (Opener.execute args w) in
  (exists l, Opener.opened w' = Opener.opened w ++ l /\ length l <= 1 /\
     forall file factory, In (file, factory) l ->
       (exists captured,
          group 2 (exec TREE_PATTERN (path args)) = Some captured /\
          decodeURIComponent captured = Some file) /\
       factory = (if String.eqb (extname file) ".ipynb"
                  then Opener.NOTEBOOK_FACTORY else Opener.EDITOR_FACTORY)) /\
  (exists l, Opener.loaded w' = Opener.loaded w ++ l /\ length l <= 1 /\
     (l <> [] -> Opener.settingRegistry w <> None)) /\
  (Aux.holdsDocumentRoute (path args) = false ->
     Opener.execute args w = (w, Fulfilled tt)).
Proof.
  intros w'. subst w'. split; [ | split].
  - unfold Opener.execute.
    destruct (group 2 (exec TREE_PATTERN (path args))) as [[|c rest]|] eqn:G;
      try (exists []; split; [rewrite app_nil_r; reflexivity | split; [cbn; lia | intros ? ? []]]).
    destruct (decodeURIComponent (String c rest)) as [file|] eqn:D;
      [ | exists []; split; [rewrite app_nil_r; reflexivity | split; [cbn; lia | intros ? ? []]]].
    unfold Opener.Promise_new, Opener.executor. cbn [fst snd].
    destruct (String.eqb (extname file) ".ipynb") eqn:E.
    + destruct (Opener.settingRegistry w) as [[| |]|];
        try (exists []; split; [rewrite app_nil_r; reflexivity | split; [cbn; lia | intros ? ? []]]);
        (exists [(file, Opener.NOTEBOOK_FACTORY)];
         split; [reflexivity | split; [cbn; lia | ]];
         intros f fac [[= <- <-]|[]]; split; [eauto | rewrite E; reflexivity]).
    + exists [(file, Opener.EDITOR_FACTORY)].
      split; [reflexivity | split; [cbn; lia | ]].
      intros f fac [[= <- <-]|[]]; split; [eauto | rewrite E; reflexivity].
  - unfold Opener.execute.
    destruct (group 2 (exec TREE_PATTERN (path args))) as [[|c rest]|];
      try (exists []; split; [rewrite app_nil_r; reflexivity | split; [cbn; lia | congruence]]).
    destruct (decodeURIComponent (String c rest)) as [file|];
      [ | exists []; split; [rewrite app_nil_r; reflexivity | split; [cbn; lia | congruence]]].
    unfold Opener.Promise_new, Opener.executor. cbn [fst snd].
    destruct (String.eqb (extname file) ".ipynb");
      [ | exists []; split; [rewrite app_nil_r; reflexivity | split; [cbn; lia | congruence]]].
    destruct (Opener.settingRegistry w) as [[| |]|] eqn:S;
      try (exists []; split; [rewrite app_nil_r; reflexivity | split; [cbn; lia | congruence]]);
      (exists ["@jupyterlab/notebook-extension:panel"];
       split; [reflexivity | split; [cbn; lia | discriminate]]).
  - intros Hh. apply execute_no_match.
    pose proof (exec_TREE_PATTERN_spec (path args)) as Sp.
    destruct (exec TREE_PATTERN (path args)) as [r|]; [ | reflexivity].
    destruct Sp as (? & ? & ? & _ & _ & _ & _ & Hh'). congruence.
Qed.

Lemma opener_execute_at_route `{Platform}
    (g p file h rq : string) (sr : option string) (w : Opener.World) :
  Aux.isRoute g ->
  p <> "" ->
  Aux.noLineTerminator p = true ->
  decodeURIComponent p = Some file ->
  Opener.settingRegistry w = None \/
  Opener.settingRegistry w = Some (Fulfilled tt) ->
  let args := {| hash := h; path := String "/" (g ++ String "/" p);
                 request := rq; search := sr |} in
  Opener.opened (fst (Opener.execute args w))
  = Opener.opened w ++
      [(file, if String.eqb (extname file) ".ipynb"
              then Opener.NOTEBOOK_FACTORY else Opener.EDITOR_FACTORY)] /\
  snd (Opener.execute args w) = Pending.
Proof.
  intros R N L D S args. subst args. unfold Opener.execute. cbn [path].
  destruct (exec_TREE_PATTERN_at_route g p R) as (r & E & G).
  rewrite E. cbn [group]. rewrite G. unfold captures.
  rewrite lookup_insert_eq, (takeLine_id p L).
  destruct p as [|c rest]; [congruence | ]. rewrite D.
  unfold Opener.Promise_new, Opener.executor. cbn [fst snd].
  destruct (String.eqb (extname file) ".ipynb");
    [destruct S as [-> | ->] | ]; split; reflexivity.
Qed.

(** The same, whatever the setting registry: a load that does not fulfil
    stops the executor before the notebook is opened. *)
Lemma opener_execute_at_route_any `{Platform}
    (g p file h rq : string) (sr : option string) (w : Opener.World) :
  Aux.isRoute g ->
  p <> "" ->
  Aux.noLineTerminator p = true ->
  decodeURIComponent p = Some file ->
  let args := {| hash := h; path := String "/" (g ++ String "/" p);
                 request := rq; search := sr |} in
  Opener.opened (fst (Opener.execute args w))
  = Opener.opened w ++
      (if String.eqb (extname file) ".ipynb"
       then match Opener.settingRegistry w with
            | None | Some (Fulfilled _) => [(file, Opener.NOTEBOOK_FACTORY)]
            | Some _ => []
            end
       else [(file, Opener.EDITOR_FACTORY)]).
Proof.
  intros R N L D args. subst args. unfold Opener.execute. cbn [path].
  destruct (exec_TREE_PATTERN_at_route g p R) as (r & E & G).
  rewrite E. cbn [group]. rewrite G. unfold captures.
  rewrite lookup_insert_eq, (takeLine_id p L).
  destruct p as [|c rest]; [congruence | ]. rewrite D.
  unfold Opener.Promise_new, Opener.executor. cbn [fst snd].
  destruct (String.eqb (extname file) ".ipynb"); [ | reflexivity].
  destruct (Opener.settingRegistry w) as [[| |]|]; cbn;
    rewrite ?app_nil_r; reflexivity.
Qed.

(** X3: the factory does not depend on the route.  For a path
    [/notebooks/<p>] or [/edit/<p>], with [p] non-empty and on one line, the
    opener opens the file [p] decodes to, with the notebook factory when its
    extension is [.ipynb] and the editor factory otherwise (the setting
    registry being absent or its load fulfilled), and its promise stays
    pending. *)
Theorem opener_factory_by_extension `{Platform}
    (g p file h rq : string) (sr : option string) (w : Opener.World) :
  Aux.isRoute g ->
  p <> "" ->
  Aux.noLineTerminator p = true ->
  decodeURIComponent p = Some file ->
  Opener.settingRegistry w = None \/
  Opener.settingRegistry w = Some (Fulfilled tt) ->
  let args := {| hash := h; path := String "/" (g ++ String "/" p);
                 request := rq; search := sr |} in
  Opener.opened (fst (Opener.execute args w))
  = Opener.opened w ++
      [(file, if String.eqb (extname file) ".ipynb"
              then Opener.NOTEBOOK_FACTORY else Opener.EDITOR_FACTORY)] /\
  snd (Opener.execute args w) = Pending.
Proof. apply opener_execute_at_route. Qed.

(** X3, witness: [/edit/work/a.ipynb] is opened with the notebook factory. *)
Lemma opener_factory_by_extension_witness :
  Opener.opened
    (fst (Opener.execute (H := Sample.platform)
            {| hash := ""; path := "/edit/work/a.ipynb";
               request := "/edit/work/a.ipynb"; search := None |}
            {| Opener.settingRegistry := None; Opener.loaded := [];
               Opener.opened := [] |}))
  = [("work/a.ipynb", Opener.NOTEBOOK_FACTORY)].
Proof.
  refine (proj1 (opener_factory_by_extension (H := Sample.platform)
            "edit" "work/a.ipynb" "work/a.ipynb" "" "/edit/work/a.ipynb" None
            {| Opener.settingRegistry := None; Opener.loaded := [];
               Opener.opened := [] |} _ _ _ _ _)).
  - right; reflexivity.
  - discriminate.
  - reflexivity.
  - vm_compute; reflexivity.
  - left; reflexivity.
Defined.

(** ** Display names *)

Section DisplayNameFacts.
Import DisplayName.

Lemma append_nil_r (s : string) : (s ++ "")%string = s.
Proof.
  induction s as [|c s IH]; [reflexivity | ].
  change (String c (s ++ "")%string = String c s). f_equal. exact IH.
Qed.

Lemma STRIP_IPYNB_here_spec s : STRIP_IPYNB_here s = true <-> s = ".ipynb".
Proof.
  unfold STRIP_IPYNB_here.
  destruct (m_Lit_cases ".ipynb" s ∅) as [(t & E & ->)|(N & ->)].
  - cbn [existsb fst]. rewrite orb_false_r, String.eqb_eq. split.
    + intros ->. rewrite E. apply append_nil_r.
    + intros ->. destruct t as [|c t]; [reflexivity | ].
      apply (f_equal String.length) in E. rewrite length_append in E.
      cbn in E. lia.
  - cbn [existsb]. split; [discriminate | intros ->].
    elim (N ""). reflexivity.
Qed.

Lemma strip_suffix n : strip (n ++ ".ipynb")%string = n.
Proof.
  induction n as [|c n IH].
  - reflexivity.
  - change (String c n ++ ".ipynb")%string with (String c (n ++ ".ipynb")%string).
    cbn [strip]. destruct (STRIP_IPYNB_here (String c (n ++ ".ipynb"))) eqn:E.
    + apply STRIP_IPYNB_here_spec in E.
      apply (f_equal String.length) in E. cbn [String.length] in E.
      rewrite length_append in E. cbn in E. lia.
    + rewrite IH. reflexivity.
Qed.

Lemma strip_other s : endsWith ".ipynb" s = false -> strip s = s.
Proof.
  induction s as [|c s IH]; intros E.
  - reflexivity.
  - cbn [endsWith] in E. apply orb_false_iff in E as [E1 E2].
    cbn [strip]. destruct (STRIP_IPYNB_here (String c s)) eqn:Hh.
    + apply STRIP_IPYNB_here_spec in Hh. rewrite Hh in E1. discriminate.
    + rewrite IH by exact E2. reflexivity.
Qed.

Lemma endsWith_spec l s : endsWith l s = true <-> exists n, s = (n ++ l)%string.
Proof.
  induction s as [|c s IH]; cbn [endsWith].
  - rewrite orb_false_r, String.eqb_eq. split.
    + intros <-. exists "". reflexivity.
    + intros [[|a n] E]; [exact E | discriminate].
  - rewrite orb_true_iff, String.eqb_eq, IH. split.
    + intros [->|[n ->]]; [exists ""; reflexivity | exists (String c n); reflexivity].
    + intros [[|a n] E]; [left; exact E | right].
      change (String c s = String a (n ++ l)%string) in E.
      injection E as -> ->. eauto.
Qed.

End DisplayNameFacts.

(** X4: removing [STRIP_IPYNB] from a name removes exactly one trailing
    [.ipynb]: a name that ends in it loses those six characters and nothing
    else, any other name is kept as it is.  So the tab title of a document
    is the base name of its path without a trailing [.ipynb], that of a
    console is computed from its session path, or from its session name when
    the path is empty, and any other widget leaves the title alone. *)
Theorem tab_title_strips_one_suffix `{PathPlatform} (title : string) :
  (forall n, DisplayName.strip (n ++ ".ipynb")%string = n) /\
  (forall s, DisplayName.endsWith ".ipynb" s = false -> DisplayName.strip s = s) /\
  (forall p n, basename p = (n ++ ".ipynb")%string ->
     TabTitle.setTabTitle (TabTitle.DocumentWidget p) title = n) /\
  (forall p, DisplayName.endsWith ".ipynb" (basename p) = false ->
     TabTitle.setTabTitle (TabTitle.DocumentWidget p) title = basename p) /\
  (forall n,
     TabTitle.setTabTitle (TabTitle.ConsolePanel "" n) title
     = DisplayName.strip (basename n)) /\
  (forall p n, p <> "" ->
     TabTitle.setTabTitle (TabTitle.ConsolePanel p n) title
     = DisplayName.strip (basename p)) /\
  TabTitle.setTabTitle TabTitle.Other title = title.
Proof.
  split; [exact strip_suffix | ]. split; [exact strip_other | ].
  split; [intros p n E; cbn; rewrite E; apply strip_suffix | ].
  split; [intros p E; cbn; apply strip_other, E | ].
  split; [reflexivity | ]. split; [ | reflexivity].
  intros p n N. cbn. apply String.eqb_neq in N. rewrite N. reflexivity.
Qed.

(** ** The title plugin *)

Section TitleFacts.
Import Title.

Lemma addTitle_filled dm current node :
  children node <> [] -> addTitle dm current node = node.
Proof.
  intros N. destruct current as [label|]; [ | reflexivity].
  cbn [addTitle]. destruct (children node); [congruence | reflexivity].
Qed.

Lemma run_filled dm currents node :
  children node <> [] -> run dm currents node = node.
Proof.
  revert node. induction currents as [|c cs IH]; intros node N; [reflexivity | ].
  unfold run. cbn [foldl]. rewrite addTitle_filled by exact N. apply IH, N.
Qed.

End TitleFacts.

(** X5: whatever widgets become current, the title node gets at most one
    heading, the display name of the first document widget among them, and
    the rename command is added at most once, and only with a document
    manager; before a document widget becomes current nothing is added. *)
Theorem title_added_once (docManager : bool) (currents : list Title.Current) :
  let node := Title.run docManager currents Title.emptyNode in
  match List.find Title.isDocument currents with
  | Some (Title.DocumentWidget label) =>
      Title.children node = [DisplayName.strip label] /\
      Title.renameAdded node = (if docManager then 1 else 0) /\
      Title.onclick node = docManager
  | _ =>
      node = Title.emptyNode
  end.
Proof.
  intros node. subst node.
  induction currents as [|c cs IH]; [reflexivity | ].
  cbn [List.find]. destruct c as [label|]; cbn [Title.isDocument].
  - change (Title.run docManager (Title.DocumentWidget label :: cs) Title.emptyNode)
      with (Title.run docManager cs
              (Title.addTitle docManager (Title.DocumentWidget label) Title.emptyNode)).
    rewrite run_filled by (destruct docManager; cbn; discriminate).
    destruct docManager; repeat split.
  - exact IH.
Qed.

(** ** The toggle command, in general *)

Section ToggleMore.
Import SideBar TogglePanel.

Lemma isToggled_area a t id sh :
  isToggled {| arg_side := areaName a; arg_title := t; arg_id := id |} sh
  = isToggled_side a {| arg_side := areaName a; arg_title := t; arg_id := id |} sh.
Proof. destruct a; reflexivity. Qed.

Lemma handler_with_handler_other a b p sh :
  a <> b -> handler b (with_handler a p sh) = handler b sh.
Proof. destruct a, b; intros N; try reflexivity; congruence. Qed.

Lemma shell_fields_with_handler a p sh :
  shellCurrentWidget (with_handler a p sh) = shellCurrentWidget sh /\
  activated (with_handler a p sh) = activated sh.
Proof. destruct a; split; reflexivity. Qed.

Lemma handler_activateById b id sh :
  handler b (activateById id sh) = handler b sh.
Proof. destruct b; reflexivity. Qed.

Lemma expand_spec a id sh :
  handler a (expand a id sh)
  = {| collapsed := false;
       currentWidget :=
         match List.find (fun w => String.eqb (w_id w) id) (widgets (handler a sh)) with
         | Some w => Some w
         | None => currentWidget (handler a sh)
         end;
       widgets := widgets (handler a sh) |} /\
  (forall b, a <> b -> handler b (expand a id sh) = handler b sh) /\
  shellCurrentWidget (expand a id sh) = shellCurrentWidget sh /\
  activated (expand a id sh) = activated sh.
Proof.
  unfold expand. split; [apply handler_with_handler | ].
  split; [intros b N; apply handler_with_handler_other, N | ].
  apply shell_fields_with_handler.
Qed.

Lemma collapse_spec a sh :
  handler a (collapse a sh)
  = {| collapsed := true; currentWidget := currentWidget (handler a sh);
       widgets := widgets (handler a sh) |} /\
  (forall b, a <> b -> handler b (collapse a sh) = handler b sh) /\
  shellCurrentWidget (collapse a sh) = shellCurrentWidget sh /\
  activated (collapse a sh) = activated sh.
Proof.
  unfold collapse. split; [apply handler_with_handler | ].
  split; [intros b N; apply handler_with_handler_other, N | ].
  apply shell_fields_with_handler.
Qed.

(** What one execution of the toggle command on side [a] does to the shell:
    the panel of [a] afterwards, and the ids activated. *)
Lemma togglePanel_side_spec a args sh :
  let p := handler a sh in
  let sh' := togglePanel_side a args sh in
  (forall b, a <> b -> handler b sh' = handler b sh) /\
  shellCurrentWidget sh' = shellCurrentWidget sh /\
  widgets (handler a sh') = widgets p /\
  (if collapsed p || idDiffers (currentWidget p) (arg_id args)
   then collapsed (handler a sh') = false /\
        currentWidget (handler a sh')
        = match List.find (fun w => String.eqb (w_id w) (arg_id args)) (widgets p) with
          | Some w => Some w
          | None => currentWidget p
          end /\
        activated sh' = activated sh
   else collapsed (handler a sh') = true /\
        currentWidget (handler a sh') = currentWidget p /\
        activated sh' = activated sh ++
          match shellCurrentWidget sh with
          | Some d => [w_id d]
          | None => []
          end).
Proof.
  intros p sh'. subst p sh'. unfold togglePanel_side.
  destruct (expand_spec a (arg_id args) sh) as (Eh & Eo & Ec & Ea).
  destruct (collapse_spec a sh) as (Ch & Co & Cc & Ca).
  destruct (collapsed (handler a sh)) eqn:C; cbn [orb].
  - rewrite Eh, Ec, Ea. cbn [collapsed currentWidget widgets].
    split; [exact Eo | ]. repeat split.
  - destruct (idDiffers (currentWidget (handler a sh)) (arg_id args)) eqn:D.
    + rewrite Eh, Ec, Ea. cbn [collapsed currentWidget widgets].
      split; [exact Eo | ]. repeat split.
    + rewrite Cc. destruct (shellCurrentWidget sh) as [d|] eqn:M.
      * rewrite !handler_activateById, Ch. cbn [collapsed currentWidget widgets].
        split; [intros b N; rewrite handler_activateById; apply Co, N | ].
        split; [exact Cc | ].
        split; [reflexivity | ]. split; [reflexivity | ].
        split; [reflexivity | ]. cbn [activateById activated]. rewrite Ca.
        reflexivity.
      * rewrite Ch, Ca, app_nil_r. cbn [collapsed currentWidget widgets].
        split; [exact Co | ]. split; [congruence | ]. repeat split.
Qed.

Lemma idDiffers_false current id :
  idDiffers current id = false <-> exists w, current = Some w /\ w_id w = id.
Proof.
  destruct current as [w|]; cbn [idDiffers].
  - rewrite negb_false_iff, String.eqb_eq. split; [eauto | intros (w' & [= <-] & E); exact E].
  - split; [discriminate | intros (w & [=] & _)].
Qed.

Lemma isToggled_side_sideState a args sh :
  isToggled_side a args sh = true <->
  sideState a sh = ExpandedWithWidget (arg_id args).
Proof.
  unfold isToggled_side, sideState.
  destruct (collapsed (handler a sh)); [split; discriminate | ].
  destruct (currentWidget (handler a sh)) as [w|]; [ | split; discriminate].
  rewrite String.eqb_eq. split; [intros ->; reflexivity | intros [= E]; exact E].
Qed.

End ToggleMore.

(** X6: the check mark follows the command.  For a widget registered on a
    side, the toggle command's [isToggled] is true exactly when the side
    shows that widget, and executing the command with the same arguments
    flips it. *)
Theorem toggle_flips_isToggled (a : SideBar.Area) (W : SideBar.Widget)
    (t : string) (sh : SideBar.NotebookShell) :
  In W (SideBar.widgets (SideBar.handler a sh)) ->
  let args := {| SideBar.arg_side := SideBar.areaName a;
                 SideBar.arg_title := t;
                 SideBar.arg_id := SideBar.w_id W |} in
  (TogglePanel.isToggled args sh = true <->
   SideBar.sideState a sh = SideBar.ExpandedWithWidget (SideBar.w_id W)) /\
  TogglePanel.isToggled args (SideBar.togglePanel_execute args sh)
  = negb (TogglePanel.isToggled args sh).
Proof.
  intros I args. subst args.
  rewrite togglePanel_execute_area, !isToggled_area.
  split; [apply isToggled_side_sideState | ].
  set (args := {| SideBar.arg_side := SideBar.areaName a;
                  SideBar.arg_title := t; SideBar.arg_id := SideBar.w_id W |}).
  destruct (togglePanel_side_spec a args sh) as (_ & _ & _ & Sp).
  destruct (find_registered W _ I) as (w' & F & E).
  unfold TogglePanel.isToggled_side at 1 2.
  destruct (SideBar.collapsed (SideBar.handler a sh)) eqn:C; cbn [orb] in Sp.
  - destruct Sp as (-> & -> & _). cbn [SideBar.arg_id args] in *. rewrite F.
    rewrite E, String.eqb_refl. reflexivity.
  - destruct (SideBar.idDiffers (SideBar.currentWidget (SideBar.handler a sh))
                (SideBar.arg_id args)) eqn:D.
    + destruct Sp as (-> & -> & _). cbn [SideBar.arg_id args] in *. rewrite F.
      rewrite E, String.eqb_refl.
      destruct (SideBar.currentWidget (SideBar.handler a sh)) as [w|];
        [ | reflexivity].
      cbn [SideBar.idDiffers] in D. apply negb_true_iff in D. rewrite D.
      reflexivity.
    + destruct Sp as (-> & _). apply idDiffers_false in D as (w & -> & ->).
      cbn [SideBar.arg_id args]. rewrite String.eqb_refl. reflexivity.
Qed.

(** X6, witness: the file browser registered on the collapsed left side. *)
Lemma toggle_flips_isToggled_witness :
  let W := {| SideBar.w_id := "filebrowser"; SideBar.w_caption := "Files" |} in
  let panel := {| SideBar.collapsed := true; SideBar.currentWidget := None;
                  SideBar.widgets := [W] |} in
  let sh := {| SideBar.leftHandler := panel; SideBar.rightHandler := panel;
               SideBar.shellCurrentWidget := None; SideBar.activated := [] |} in
  let args := {| SideBar.arg_side := "left"; SideBar.arg_title := "Show Files";
                 SideBar.arg_id := "filebrowser" |} in
  TogglePanel.isToggled args (SideBar.togglePanel_execute args sh)
  = negb (TogglePanel.isToggled args sh).
Proof.
  intros W panel sh args.
  refine (proj2 (toggle_flips_isToggled SideBar.Left W "Show Files" sh _)).
  simpl; left; reflexivity.
Defined.


(** X7: what the toggle command leaves alone.  It never changes which
    widgets are registered on either side nor which main-area widget is
    current, it changes nothing on the side it was not asked about, it
    activates at most one widget by id, and with a side that is neither
    [left] nor [right] it does nothing at all. *)
Theorem toggle_frame (args : SideBar.ToggleArgs) (sh : SideBar.NotebookShell) :
  let sh' := SideBar.togglePanel_execute args sh in
  (forall b, SideBar.widgets (SideBar.handler b sh')
             = SideBar.widgets (SideBar.handler b sh)) /\
  SideBar.shellCurrentWidget sh' = SideBar.shellCurrentWidget sh /\
  (forall b, SideBar.areaName b <> SideBar.arg_side args ->
             SideBar.handler b sh' = SideBar.handler b sh) /\
  (exists l, SideBar.activated sh' = SideBar.activated sh ++ l /\ length l <= 1) /\
  (SideBar.arg_side args <> "left" -> SideBar.arg_side args <> "right" ->
   sh' = sh).
Proof.
  intros sh'. subst sh'. unfold SideBar.togglePanel_execute.
  assert (G : forall a, SideBar.arg_side args = SideBar.areaName a ->
    (forall b, SideBar.widgets (SideBar.handler b (SideBar.togglePanel_side a args sh))
               = SideBar.widgets (SideBar.handler b sh)) /\
    SideBar.shellCurrentWidget (SideBar.togglePanel_side a args sh)
    = SideBar.shellCurrentWidget sh /\
    (forall b, SideBar.areaName b <> SideBar.arg_side args ->
               SideBar.handler b (SideBar.togglePanel_side a args sh)
               = SideBar.handler b sh) /\
    (exists l, SideBar.activated (SideBar.togglePanel_side a args sh)
               = SideBar.activated sh ++ l /\ length l <= 1)).
  { intros a Ea. destruct (togglePanel_side_spec a args sh) as (O & Cw & Ws & Sp).
    split; [ | split; [exact Cw | split]].
    - intros b. destruct (SideBar.Area_eqb a b) eqn:Eb.
      + apply Area_eqb_eq in Eb. subst b. exact Ws.
      + apply Area_eqb_neq in Eb. rewrite (O b Eb). reflexivity.
    - intros b N. apply O. intros <-. congruence.
    - destruct (_ || _).
      + exists []. destruct Sp as (_ & _ & ->). rewrite app_nil_r. split; [reflexivity | cbn; lia].
      + destruct Sp as (_ & _ & ->). eexists. split; [reflexivity | ].
        destruct (SideBar.shellCurrentWidget sh); cbn; lia. }
  destruct (String.eqb (SideBar.arg_side args) "left") eqn:L.
  - apply String.eqb_eq in L. destruct (G SideBar.Left L) as (A & B & C & D).
    repeat (split; [assumption | ]). congruence.
  - destruct (String.eqb (SideBar.arg_side args) "right") eqn:R.
    + apply String.eqb_eq in R. destruct (G SideBar.Right R) as (A & B & C & D).
      repeat (split; [assumption | ]). congruence.
    + repeat (split; [reflexivity | ]).
      split; [exists []; rewrite app_nil_r; split; [reflexivity | cbn; lia] | ].
      reflexivity.
Qed.

(** X8: switching without collapsing.  On a collapsed side with two
    registered widgets of different ids, toggling the first shows it,
    toggling the second then shows the second without any focus change, and
    toggling the second again collapses the side and activates the current
    main-area widget, if there is one, exactly once. *)
Theorem toggle_switches_without_collapsing (a : SideBar.Area)
    (A B : SideBar.Widget) (tA tB : string) (sh : SideBar.NotebookShell) :
  In A (SideBar.widgets (SideBar.handler a sh)) ->
  In B (SideBar.widgets (SideBar.handler a sh)) ->
  SideBar.w_id A <> SideBar.w_id B ->
  SideBar.sideState a sh = SideBar.Collapsed ->
  let argsA := {| SideBar.arg_side := SideBar.areaName a;
                  SideBar.arg_title := tA; SideBar.arg_id := SideBar.w_id A |} in
  let argsB := {| SideBar.arg_side := SideBar.areaName a;
                  SideBar.arg_title := tB; SideBar.arg_id := SideBar.w_id B |} in
  let s1 := SideBar.togglePanel_execute argsA sh in
  let s2 := SideBar.togglePanel_execute argsB s1 in
  let s3 := SideBar.togglePanel_execute argsB s2 in
  SideBar.sideState a s1 = SideBar.ExpandedWithWidget (SideBar.w_id A) /\
  SideBar.sideState a s2 = SideBar.ExpandedWithWidget (SideBar.w_id B) /\
  SideBar.activated s2 = SideBar.activated sh /\
  SideBar.sideState a s3 = SideBar.Collapsed /\
  SideBar.activated s3 =
    SideBar.activated sh ++
      match SideBar.shellCurrentWidget sh with
      | Some d => [SideBar.w_id d]
      | None => []
      end.
Proof.
  intros IA IB N S argsA argsB s1 s2 s3. subst s3 s2 s1 argsA argsB.
  rewrite !togglePanel_execute_area.
  set (argsA := {| SideBar.arg_side := SideBar.areaName a;
                   SideBar.arg_title := tA; SideBar.arg_id := SideBar.w_id A |}).
  set (argsB := {| SideBar.arg_side := SideBar.areaName a;
                   SideBar.arg_title := tB; SideBar.arg_id := SideBar.w_id B |}).
  destruct (find_registered A _ IA) as (wa & FA & EA).
  destruct (find_registered B _ IB) as (wb & FB & EB).
  (* first toggle *)
  destruct (togglePanel_side_spec a argsA sh) as (_ & C1 & W1 & Sp1).
  assert (T1 : SideBar.collapsed (SideBar.handler a sh)
               || SideBar.idDiffers (SideBar.currentWidget (SideBar.handler a sh))
                    (SideBar.arg_id argsA) = true).
  { unfold SideBar.sideState in S.
    destruct (SideBar.collapsed (SideBar.handler a sh)); [reflexivity | ].
    destruct (SideBar.currentWidget (SideBar.handler a sh)); [discriminate | reflexivity]. }
  rewrite T1 in Sp1. destruct Sp1 as (Col1 & Cur1 & Act1).
  cbn [SideBar.arg_id argsA] in Cur1. rewrite FA in Cur1.
  set (s1 := SideBar.togglePanel_side a argsA sh) in *.
  (* second toggle *)
  destruct (togglePanel_side_spec a argsB s1) as (_ & C2 & W2 & Sp2).
  rewrite Col1, Cur1 in Sp2. cbn [orb SideBar.idDiffers SideBar.arg_id argsB] in Sp2.
  assert (D2 : String.eqb (SideBar.w_id wa) (SideBar.w_id B) = false)
    by (apply String.eqb_neq; congruence).
  rewrite D2 in Sp2. cbn [negb] in Sp2. destruct Sp2 as (Col2 & Cur2 & Act2).
  rewrite W1, FB in Cur2.
  set (s2 := SideBar.togglePanel_side a argsB s1) in *.
  (* third toggle *)
  destruct (togglePanel_side_spec a argsB s2) as (_ & C3 & W3 & Sp3).
  rewrite Col2, Cur2 in Sp3. cbn [orb SideBar.idDiffers SideBar.arg_id argsB] in Sp3.
  rewrite EB, String.eqb_refl in Sp3. cbn [negb] in Sp3.
  destruct Sp3 as (Col3 & Cur3 & Act3).
  set (s3 := SideBar.togglePanel_side a argsB s2) in *.
  unfold SideBar.sideState.
  rewrite Col1, Cur1, Col2, Cur2, Col3, Act3, Act2, Act1, C2, C1, EA, EB.
  repeat split.
Qed.

(** X8, witness: two panels on the left side, a notebook in the main area. *)
Lemma toggle_switches_without_collapsing_witness :
  let A := {| SideBar.w_id := "filebrowser"; SideBar.w_caption := "Files" |} in
  let B := {| SideBar.w_id := "toc"; SideBar.w_caption := "Contents" |} in
  let doc := {| SideBar.w_id := "notebook-1"; SideBar.w_caption := "a.ipynb" |} in
  let panel := {| SideBar.collapsed := true; SideBar.currentWidget := None;
                  SideBar.widgets := [A; B] |} in
  let sh := {| SideBar.leftHandler := panel; SideBar.rightHandler := panel;
               SideBar.shellCurrentWidget := Some doc; SideBar.activated := [] |} in
  let argsA := {| SideBar.arg_side := "left"; SideBar.arg_title := "a";
                  SideBar.arg_id := "filebrowser" |} in
  let argsB := {| SideBar.arg_side := "left"; SideBar.arg_title := "b";
                  SideBar.arg_id := "toc" |} in
  SideBar.sideState SideBar.Left
    (SideBar.togglePanel_execute argsB (SideBar.togglePanel_execute argsA sh))
  = SideBar.ExpandedWithWidget "toc".
Proof.
  intros A B doc panel sh argsA argsB.
  refine (proj1 (proj2 (toggle_switches_without_collapsing SideBar.Left A B
                          "a" "b" sh _ _ _ _))).
  - simpl; left; reflexivity.
  - simpl; right; left; reflexivity.
  - discriminate.
  - reflexivity.
Defined.


Section MenuSync.
Import SideBar SideBarInv Aux.

Lemma togglePanel_execute_widgets b args sh :
  widgets (handler b (togglePanel_execute args sh)) = widgets (handler b sh).
Proof.
  assert (G : forall a, widgets (handler b (togglePanel_side a args sh))
                        = widgets (handler b sh)).
  { intros a. destruct (togglePanel_side_spec a args sh) as (O & _ & Ws & _).
    destruct (Area_eqb a b) eqn:Eb.
    - apply Area_eqb_eq in Eb. subst b. exact Ws.
    - apply Area_eqb_neq in Eb. rewrite (O b Eb). reflexivity. }
  unfold togglePanel_execute.
  destruct (String.eqb _ "left"); [apply G | ].
  destruct (String.eqb _ "right"); [apply G | reflexivity].
Qed.

Lemma sidebarUpdated_restored a widget action w :
  restored (sidebarUpdated a widget action w) = restored w.
Proof.
  unfold sidebarUpdated.
  assert (E : restored (match menu w with
                        | Some _ => updateMenu a (getSidebarLabel a) w
                        | None => w
                        end) = restored w).
  { destruct (menu w); [apply updateMenu_frame | reflexivity]. }
  destruct (sideBarPalette _); [destruct action | ]; exact E.
Qed.

Lemma onRestored_fields w :
  restored (onRestored w) = true /\
  shell (onRestored w) = shell w /\
  (menu w <> None ->
   forall a, sideEntries a (onRestored w)
             = sideEntries a (updateMenu Right (getSidebarLabel Right)
                                (updateMenu Left (getSidebarLabel Left) w))).
Proof.
  unfold onRestored. split; [reflexivity | ]. split.
  - cbn [shell].
    assert (E : shell (match menu w with
                       | Some _ =>
                           updateMenu Right (getSidebarLabel Right)
                             (updateMenu Left (getSidebarLabel Left) w)
                       | None => w
                       end) = shell w).
    { destruct (menu w); [ | reflexivity].
      destruct (updateMenu_frame Right (getSidebarLabel Right)
                  (updateMenu Left (getSidebarLabel Left) w)) as (-> & _).
      apply updateMenu_frame. }
    destruct (palette _); exact E.
  - intros N a. destruct (menu w) eqn:M; [ | congruence].
    unfold sideEntries. cbn [menu]. destruct (palette _); reflexivity.
Qed.

Lemma step_synced ev w :
  menuWf w -> menu w <> None -> syncedAll w -> syncedAll (step ev w).
Proof.
  intros Wf N Sy a. destruct ev as [|a' widget|a' widget|args|tag]; cbn [step].
  - destruct (restored w) eqn:R;
      [rewrite R; specialize (Sy a); rewrite R in Sy; exact Sy | ].
    destruct (onRestored_fields w) as (-> & -> & Se). rewrite (Se N a).
    set (w1 := updateMenu Left (getSidebarLabel Left) w).
    assert (Wf1 : menuWf w1) by apply updateMenu_wf, Wf.
    assert (N1 : menu w1 <> None)
      by (intros E; apply updateMenu_frame in E; congruence).
    assert (S1 : shell w1 = shell w) by apply updateMenu_frame.
    destruct a.
    + rewrite updateMenu_other by (assumption || discriminate).
      apply updateMenu_synced; assumption.
    + rewrite updateMenu_synced by assumption. rewrite S1. reflexivity.
  - cbn [restored with_shell]. destruct (restored w) eqn:R.
    + rewrite sidebarUpdated_sideEntries, sidebarUpdated_restored,
        sidebarUpdated_shell. cbn [restored shell with_shell]. rewrite R.
      destruct (Area_eqb a' a) eqn:E.
      * apply Area_eqb_eq in E. subst a'.
        apply (updateMenu_synced a (with_shell (addWidget a widget (shell w)) w));
          assumption.
      * apply Area_eqb_neq in E.
        rewrite (updateMenu_other a' a (with_shell (addWidget a' widget (shell w)) w))
          by assumption.
        change (sideEntries a w
                = rebuilt a (widgets (handler a (addWidget a' widget (shell w))))).
        unfold addWidget. rewrite handler_with_handler_other by exact E.
        specialize (Sy a). rewrite R in Sy. exact Sy.
    + cbn [restored with_shell]. rewrite R. specialize (Sy a). rewrite R in Sy.
      exact Sy.
  - cbn [restored with_shell]. destruct (restored w) eqn:R.
    + rewrite sidebarUpdated_sideEntries, sidebarUpdated_restored,
        sidebarUpdated_shell. cbn [restored shell with_shell]. rewrite R.
      destruct (Area_eqb a' a) eqn:E.
      * apply Area_eqb_eq in E. subst a'.
        apply (updateMenu_synced a (with_shell (removeWidget a widget (shell w)) w));
          assumption.
      * apply Area_eqb_neq in E.
        rewrite (updateMenu_other a' a (with_shell (removeWidget a' widget (shell w)) w))
          by assumption.
        change (sideEntries a w
                = rebuilt a (widgets (handler a (removeWidget a' widget (shell w))))).
        unfold removeWidget. rewrite handler_with_handler_other by exact E.
        specialize (Sy a). rewrite R in Sy. exact Sy.
    + cbn [restored with_shell]. rewrite R. specialize (Sy a). rewrite R in Sy.
      exact Sy.
  - cbn [restored shell with_shell]. rewrite togglePanel_execute_widgets.
    apply Sy.
  - destruct (menu w) as [vm|] eqn:M; [ | congruence].
    specialize (Sy a). unfold sideEntries in *. rewrite M in Sy.
    cbn [menu with_menu addItem snd entries restored shell].
    rewrite List.map_app, List.filter_app. cbn [map snd List.filter isSideEntry].
    rewrite app_nil_r. exact Sy.
Qed.

Lemma run_synced evs w :
  menuWf w -> menu w <> None -> syncedAll w -> syncedAll (run evs w).
Proof.
  revert w. induction evs as [|ev evs IH]; intros w Wf N Sy; [exact Sy | ].
  unfold run. cbn [foldl].
  apply IH; [apply step_wf, Wf | apply step_menu, N | apply step_synced; assumption].
Qed.

Lemma boot_synced sh hasPalette : syncedAll (boot sh true hasPalette).
Proof. intros a. reflexivity. Qed.

(** The handlers are connected exactly from the [Restored] event on. *)
Lemma step_restored ev w :
  restored (step ev w) = true <-> restored w = true \/ ev = Restored.
Proof.
  destruct ev as [|a widget|a widget|args|tag]; cbn [step].
  - destruct (restored w) eqn:R.
    + rewrite R. split; [left; reflexivity | reflexivity].
    + destruct (onRestored_fields w) as (-> & _).
      split; [right; reflexivity | reflexivity].
  - cbn [restored with_shell]. destruct (restored w) eqn:R.
    + rewrite sidebarUpdated_restored. cbn [restored with_shell]. rewrite R.
      split; [left; reflexivity | reflexivity].
    + cbn [restored with_shell]. rewrite R.
      split; [discriminate | intros [E|E]; discriminate].
  - cbn [restored with_shell]. destruct (restored w) eqn:R.
    + rewrite sidebarUpdated_restored. cbn [restored with_shell]. rewrite R.
      split; [left; reflexivity | reflexivity].
    + cbn [restored with_shell]. rewrite R.
      split; [discriminate | intros [E|E]; discriminate].
  - cbn [restored with_shell].
    split; [left; assumption | intros [E|E]; [exact E | discriminate]].
  - assert (E : restored (match menu w with
                          | Some vm => with_menu (snd (addItem (Foreign tag) vm)) w
                          | None => w
                          end) = restored w) by (destruct (menu w); reflexivity).
    rewrite E. split; [left; assumption | intros [R|R]; [exact R | discriminate]].
Qed.

Lemma run_restored evs w :
  restored (run evs w) = true <-> restored w = true \/ In Restored evs.
Proof.
  revert w. induction evs as [|ev evs IH]; intros w.
  - cbn. tauto.
  - unfold run. cbn [foldl]. fold (run evs (step ev w)).
    rewrite IH, step_restored. cbn [In]. tauto.
Qed.

Lemma boot_run_restored sh hasMenu hasPalette evs :
  restored (run evs (boot sh hasMenu hasPalette)) = true <-> In Restored evs.
Proof.
  rewrite run_restored. cbn [boot activate restored].
  split; [intros [E|I]; [discriminate | exact I] | intros I; right; exact I].
Qed.

Lemma boot_run_not_restored sh hasMenu hasPalette evs :
  ~ In Restored evs -> restored (run evs (boot sh hasMenu hasPalette)) = false.
Proof.
  intros N. destruct (restored _) eqn:R; [ | reflexivity].
  apply boot_run_restored in R. contradiction.
Qed.


End MenuSync.

(** ** The View menu and the restored callback *)




(** X9: with a main menu present, the View menu follows the [Restored]
    event and the panels.  As long as the application has not been restored
    (no [Restored] event among those delivered) the View menu holds no
    sidebar submenu for a side, whatever panels were added; once it has, the
    menu holds for each side exactly the submenu rebuilt from the panels the
    side has at that moment (panels registered before restoration
    included), whatever panel, toggle and foreign menu events happened. *)
Theorem menu_follows_panels (sh : SideBar.NotebookShell) (hasPalette : bool)
    (evs : list SideBar.Event) (a : SideBar.Area) :
  let w := SideBar.run evs (SideBar.boot sh true hasPalette) in
  (In SideBar.Restored evs ->
   SideBar.sideEntries a w
   = SideBar.rebuilt a (SideBar.widgets (SideBar.handler a (SideBar.shell w)))) /\
  (~ In SideBar.Restored evs -> SideBar.sideEntries a w = []).
Proof.
  intros w.
  assert (Sy : Aux.syncedAll w)
    by (apply run_synced; [apply boot_wf | discriminate | apply boot_synced]).
  split; intros R; rewrite (Sy a).
  - apply (boot_run_restored sh true hasPalette) in R. fold w in R.
    rewrite R. reflexivity.
  - apply (boot_run_not_restored sh true hasPalette) in R. fold w in R.
    rewrite R. reflexivity.
Qed.

(** X9, witness: the file browser added on the left before the restoration
    has its submenu once the application is restored, and none before. *)
Lemma menu_follows_panels_witness :
  let W := {| SideBar.w_id := "filebrowser"; SideBar.w_caption := "Files" |} in
  let side := {| SideBar.collapsed := true; SideBar.currentWidget := None;
                 SideBar.widgets := [] |} in
  let sh := {| SideBar.leftHandler := side; SideBar.rightHandler := side;
               SideBar.shellCurrentWidget := None; SideBar.activated := [] |} in
  SideBar.sideEntries SideBar.Left
    (SideBar.run [SideBar.WidgetAdded SideBar.Left W; SideBar.Restored]
       (SideBar.boot sh true false))
  = [SideBar.Submenu
       {| SideBar.label := "Left Sidebar";
          SideBar.items := [SideBarInv.toggleItem SideBar.Left W] |}] /\
  SideBar.sideEntries SideBar.Left
    (SideBar.run [SideBar.WidgetAdded SideBar.Left W]
       (SideBar.boot sh true false))
  = [].
Proof.
  intros W side sh. split.
  - refine (proj1 (menu_follows_panels sh false
                     [SideBar.WidgetAdded SideBar.Left W; SideBar.Restored]
                     SideBar.Left) _).
    simpl; right; left; reflexivity.
  - refine (proj2 (menu_follows_panels sh false
                     [SideBar.WidgetAdded SideBar.Left W] SideBar.Left) _).
    simpl. intros [E | []]. discriminate E.
Defined.

(** X10: the View menu never offers a dead item.  After restoration, every
    item of a side's submenu runs the toggle command with the side, the id
    and the caption of a panel that is registered on that side at that
    moment, and running it on the collapsed side expands the side with that
    panel. *)
Theorem menu_items_are_live (sh : SideBar.NotebookShell) (hasPalette : bool)
    (evs : list SideBar.Event) (a : SideBar.Area)
    (mn : SideBar.Menu) (it : SideBar.MenuItem) :
  let w := SideBar.run evs (SideBar.boot sh true hasPalette) in
  SideBar.restored w = true ->
  In (SideBar.Submenu mn) (SideBar.sideEntries a w) ->
  In it (SideBar.items mn) ->
  SideBar.item_command it = CommandIDs.togglePanel /\
  exists widget,
    In widget (SideBar.widgets (SideBar.handler a (SideBar.shell w))) /\
    SideBar.item_args it
    = {| SideBar.arg_side := SideBar.areaName a;
         SideBar.arg_title := ("Show " ++ SideBar.w_caption widget)%string;
         SideBar.arg_id := SideBar.w_id widget |} /\
    (SideBar.sideState a (SideBar.shell w) = SideBar.Collapsed ->
     SideBar.sideState a
       (SideBar.togglePanel_execute (SideBar.item_args it) (SideBar.shell w))
     = SideBar.ExpandedWithWidget (SideBar.w_id widget)).
Proof.
  intros w R I1 I2.
  assert (Sy : SideBar.sideEntries a w
               = SideBar.rebuilt a
                   (SideBar.widgets (SideBar.handler a (SideBar.shell w)))).
  { pose proof (run_synced evs (SideBar.boot sh true hasPalette)
                  (boot_wf sh true hasPalette) ltac:(discriminate)
                  (boot_synced sh hasPalette) a) as Sy.
    fold w in Sy. rewrite R in Sy. exact Sy. }
  rewrite Sy, rebuilt_spec in I1.
  destruct (SideBar.widgets (SideBar.handler a (SideBar.shell w))) as [|x ws] eqn:Ws;
    [destruct I1 | ].
  destruct I1 as [[= <-]|[]]. cbn [SideBar.items] in I2.
  change (In it (map (SideBarInv.toggleItem a) (x :: ws))) in I2.
  apply in_map_iff in I2 as (widget & <- & Iw).
  split; [reflexivity | ]. exists widget. split; [exact Iw | ].
  split; [reflexivity | ].
  intros S. cbn [SideBarInv.toggleItem SideBar.item_args].
  rewrite togglePanel_execute_area.
  rewrite <- Ws in Iw.
  destruct (find_registered widget _ Iw) as (w' & F & E).
  destruct (toggle_from_collapsed a _ ("Show " ++ SideBar.w_caption widget)%string
              (SideBar.shell w) w' F S) as (Hh & _).
  unfold SideBar.sideState. rewrite Hh. cbn. rewrite E. reflexivity.
Qed.

(** X10, witness: the file browser, added on the left before restoration. *)
Lemma menu_items_are_live_witness :
  let W := {| SideBar.w_id := "filebrowser"; SideBar.w_caption := "Files" |} in
  let side := {| SideBar.collapsed := true; SideBar.currentWidget := None;
                 SideBar.widgets := [] |} in
  let sh := {| SideBar.leftHandler := side; SideBar.rightHandler := side;
               SideBar.shellCurrentWidget := None; SideBar.activated := [] |} in
  let it := SideBarInv.toggleItem SideBar.Left W in
  SideBar.item_command it = CommandIDs.togglePanel.
Proof.
  intros W side sh it.
  refine (proj1 (menu_items_are_live sh false
                   [SideBar.WidgetAdded SideBar.Left W; SideBar.Restored]
                   SideBar.Left
                   {| SideBar.label := "Left Sidebar"; SideBar.items := [it] |}
                   it _ _ _)).
  - reflexivity.
  - vm_compute; left; reflexivity.
  - simpl; left; reflexivity.
Defined.


(** ** The resolver's set and the router plugin *)

(** X11: the disposable set is released as a whole.  After any sequence of
    events the resolver's command, route rule and routed listener are either
    all still registered, with the promise pending, or all released, with
    the promise settled; [delegate.resolve] has been called as often as the
    set was disposed, at most once. *)
Theorem resolver_set_released_with_promise `{Platform}
    (pc : gmap string string) (evs : list TreeResolver.Event) :
  let st := TreeResolver.run pc evs TreeResolver.activate in
  TreeResolver.commandAdded st = negb (TreeResolver.isDisposed st) /\
  TreeResolver.ruleRegistered st = negb (TreeResolver.isDisposed st) /\
  TreeResolver.listenerConnected st = negb (TreeResolver.isDisposed st) /\
  (TreeResolver.promise st = Pending <-> TreeResolver.isDisposed st = false) /\
  TreeResolver.resolveCalls st = TreeResolver.disposals st /\
  TreeResolver.disposals st <= 1.
Proof.
  intros st. subst st.
  pose proof (run_from_live pc evs TreeResolver.activate eq_refl eq_refl) as R.
  destruct (List.find TreeResolver.effective evs); rewrite R; cbn;
    repeat split; try lia; try discriminate; reflexivity.
Qed.

Section RouterPluginFacts.
Import Router RouterPlugin Aux.
Context `{Platform}.

Lemma commands_execute_resolver id args app :
  TreeResolver.commandAdded (resolver app) = false ->
  resolver (commands_execute id args app) = resolver app.
Proof.
  intros C. unfold commands_execute.
  destruct (String.eqb id CommandIDs.routerTree); [reflexivity | ].
  destruct (String.eqb id CommandIDs.resolveTree); [ | reflexivity].
  rewrite C. reflexivity.
Qed.

Lemma route_released app :
  released (resolver app) -> resolver (route app) = resolver app.
Proof.
  intros (D & C & R & L). unfold route, routed_emit.
  assert (E : resolver
                match List.find (fun r => test (pattern r) (path (location app)))
                        (registered app) with
                | Some r => commands_execute (command r) (location app) app
                | None => app
                end = resolver app).
  { destruct (List.find _ _); [apply commands_execute_resolver, C | reflexivity]. }
  rewrite E, L. exact E.
Qed.

Lemma route_start_released treeFirst loc pc settings :
  let r := resolver (route (start treeFirst loc pc settings)) in
  released r /\
  TreeResolver.resolveCalls r = 1 /\
  TreeResolver.disposals r = 1 /\
  TreeResolver.promise r <> Pending.
Proof.
  intros r. subst r. unfold released, route, registered.
  destruct treeFirst;
    cbn [start location rules resolver command pattern openerRule treeRule
         TreeResolver.activate TreeResolver.ruleRegistered
         List.filter List.find String.eqb Ascii.eqb Bool.eqb
         CommandIDs.resolveTree CommandIDs.routerTree];
    destruct (test treePattern (path loc));
    destruct (test TREE_PATTERN (path loc));
    unfold commands_execute;
    cbn [command treeRule openerRule String.eqb Ascii.eqb Bool.eqb
         CommandIDs.resolveTree CommandIDs.routerTree
         resolver pageConfig with_opener with_resolver
         TreeResolver.commandAdded TreeResolver.activate];
    unfold TreeResolver.execute, routed_emit;
    cbn [TreeResolver.isDisposed TreeResolver.activate resolver
         with_resolver TreeResolver.listenerConnected];
    try destruct (URLExt.queryStringToObject (default "" (search loc)));
    cbn; repeat split; discriminate.
Qed.

Lemma step_pluginInv tf pc settings ev st :
  pluginInv tf pc settings st -> pluginInv tf pc settings (step ev st).
Proof.
  unfold pluginInv. intros I. destruct ev as [|loc]; cbn [step].
  - destruct (started st) eqn:S; [rewrite S; exact I | ].
    cbn [started app]. destruct I as [loc ->]. apply route_start_released.
  - cbn [started app]. destruct (started st) eqn:S.
    + destruct I as (Rl & I).
      rewrite (route_released (with_location loc (app st))) by exact Rl.
      split; [exact Rl | exact I].
    + destruct I as [loc0 ->]. exists loc. reflexivity.
Qed.

Lemma run_pluginInv tf pc settings evs st :
  pluginInv tf pc settings st -> pluginInv tf pc settings (run evs st).
Proof.
  revert st. induction evs as [|ev evs IH]; intros st I; [exact I | ].
  unfold run. cbn [foldl]. apply IH, step_pluginInv, I.
Qed.

Lemma step_started_resolver ev st :
  started st = true -> released (resolver (app st)) ->
  started (step ev st) = true /\ resolver (app (step ev st)) = resolver (app st).
Proof.
  intros S Rl. destruct ev as [|loc]; cbn [step].
  - rewrite S. split; [exact S | reflexivity].
  - cbn [started app]. rewrite S. split; [reflexivity | ].
    apply (route_released (with_location loc (app st))), Rl.
Qed.

Lemma run_started_resolver evs st :
  started st = true -> released (resolver (app st)) ->
  resolver (app (run evs st)) = resolver (app st).
Proof.
  revert st. induction evs as [|ev evs IH]; intros st S Rl; [reflexivity | ].
  unfold run. cbn [foldl].
  destruct (step_started_resolver ev st S Rl) as [S' E].
  fold (run evs (step ev st)). rewrite IH; [exact E | exact S' | rewrite E; exact Rl].
Qed.

End RouterPluginFacts.

(** X12: the router plugin routes nothing before the application has
    started (a popstate then only moves the location); its first route,
    at the start, settles the tree resolver's promise and releases its set;
    and no later popstate route changes the resolver again. *)
Theorem router_plugin_settles_resolver_at_start `{Platform}
    (treeFirst : bool) (loc : ILocation) (pc : gmap string string)
    (settings : option (PromiseState unit)) (evs later : list RouterPlugin.Event) :
  let st := RouterPlugin.run evs
              (RouterPlugin.activate (Router.start treeFirst loc pc settings)) in
  (if RouterPlugin.started st
   then TreeResolver.resolveCalls (Router.resolver (RouterPlugin.app st)) = 1 /\
        TreeResolver.promise (Router.resolver (RouterPlugin.app st)) <> Pending /\
        Router.resolver (RouterPlugin.app (RouterPlugin.run later st))
        = Router.resolver (RouterPlugin.app st)
   else exists loc',
          RouterPlugin.app st = Router.start treeFirst loc' pc settings) /\
  (RouterPlugin.started st = true <-> In RouterPlugin.AppStarted evs).
Proof.
  intros st.
  assert (I : Aux.pluginInv treeFirst pc settings st).
  { apply run_pluginInv. exists loc. reflexivity. }
  split.
  - unfold Aux.pluginInv in I. destruct (RouterPlugin.started st) eqn:S; [ | exact I].
    destruct I as (Rl & Rc & _ & P). split; [exact Rc | ]. split; [exact P | ].
    apply run_started_resolver; assumption.
  - subst st. clear I.
    assert (G : forall evs s,
              RouterPlugin.started (RouterPlugin.run evs s) = true <->
              RouterPlugin.started s = true \/ In RouterPlugin.AppStarted evs).
    { clear. induction evs as [|ev evs IH]; intros s.
      - cbn. tauto.
      - unfold RouterPlugin.run. cbn [foldl]. fold (RouterPlugin.run evs (RouterPlugin.step ev s)).
        rewrite IH. destruct ev as [|l]; cbn [RouterPlugin.step In].
        + destruct (RouterPlugin.started s) eqn:S; [rewrite S | cbn]; intuition congruence.
        + cbn [RouterPlugin.started]. intuition congruence. }
    rewrite G. cbn [RouterPlugin.started RouterPlugin.activate].
    intuition congruence.
Qed.

(** ** Sequences of tree path updates; top visibility; zen mode *)

Section UpdatesFacts.
Import Router TreePathUpdater TreePathUpdates.
Context `{Platform}.

Lemma updateTreePath_changed p app :
  p <> PageConfig.getOption "treePath" (pageConfig app) ->
  let app' := updateTreePath p app in
  history app' = history app ++ [treeUrl (pageConfig app) p] /\
  configWrites app' = configWrites app ++ [("treePath", p)] /\
  pageConfig app' = <["treePath" := p]> (pageConfig app) /\
  resolver app' = resolver app /\ opener app' = opener app /\
  rules app' = rules app.
Proof.
  intros N app'. subst app'. unfold updateTreePath.
  apply String.eqb_neq in N. rewrite N. cbn [negb]. repeat split.
Qed.

Lemma treeUrl_insert pc p q :
  treeUrl (<["treePath" := p]> pc) q = treeUrl pc q.
Proof.
  unfold treeUrl, PageConfig.getOption.
  rewrite lookup_insert_ne by discriminate. reflexivity.
Qed.

Lemma last_cons_default {A} (p : A) ps d : List.last (p :: ps) d = List.last ps p.
Proof.
  revert p d. induction ps as [|q ps IH]; intros p d; [reflexivity | ].
  change (List.last (q :: ps) d = List.last (q :: ps) p). rewrite !IH.
  reflexivity.
Qed.

Lemma updates_spec ps app :
  let recorded := PageConfig.getOption "treePath" (pageConfig app) in
  let app' := updates ps app in
  history app' = history app ++ map (treeUrl (pageConfig app)) (changes recorded ps) /\
  configWrites app'
  = configWrites app ++ map (fun p => ("treePath", p)) (changes recorded ps) /\
  PageConfig.getOption "treePath" (pageConfig app') = List.last ps recorded /\
  PageConfig.getOption "baseUrl" (pageConfig app')
  = PageConfig.getOption "baseUrl" (pageConfig app) /\
  resolver app' = resolver app /\ opener app' = opener app /\
  rules app' = rules app.
Proof.
  revert app. induction ps as [|p ps IH]; intros app recorded app'.
  - subst app'. cbn. rewrite !app_nil_r. repeat split.
  - subst app' recorded. unfold updates. cbn [foldl].
    fold (updates ps (updateTreePath p app)). cbn [changes].
    destruct (String.eqb p (PageConfig.getOption "treePath" (pageConfig app))) eqn:E.
    + apply String.eqb_eq in E.
      rewrite (updateTreePath_same p app) by congruence.
      destruct (IH app) as (Hh & Hw & Hl & Hb & Hr).
      rewrite Hh, Hw, Hb. repeat split; try apply Hr.
      rewrite Hl, last_cons_default, E. reflexivity.
    + apply String.eqb_neq in E.
      destruct (updateTreePath_changed p app E) as (Uh & Uw & Up & Ur & Uo & Ul).
      destruct (IH (updateTreePath p app)) as (Hh & Hw & Hl & Hb & Hr & Ho & Hu).
      rewrite (updateTreePath_records p app) in Hh, Hw, Hl.
      rewrite Hh, Hw, Uh, Uw, Hb, Hr, Ho, Hu, Ur, Uo, Ul, Up, <- !app_assoc.
      cbn [map List.app].
      assert (Em : map (treeUrl (<["treePath" := p]> (pageConfig app))) (changes p ps)
                   = map (treeUrl (pageConfig app)) (changes p ps)).
      { apply map_ext. intros q. apply treeUrl_insert. }
      rewrite Em. repeat split.
      * rewrite Hl, last_cons_default. reflexivity.
      * unfold PageConfig.getOption. rewrite lookup_insert_ne by discriminate.
        reflexivity.
Qed.

End UpdatesFacts.

(** X13: a sequence of calls of the tree path updater never dispatches a
    route: the tree resolver, the opener and the registered rules are as
    before, the base URL is as before, and the tree path recorded at the end
    is the argument of the last call. *)
Theorem tree_path_updates_never_route `{Platform}
    (treePaths : list string) (app : Router.App) :
  let app' := TreePathUpdates.updates treePaths app in
  Router.resolver app' = Router.resolver app /\
  Router.opener app' = Router.opener app /\
  Router.rules app' = Router.rules app /\
  PageConfig.getOption "baseUrl" (Router.pageConfig app')
  = PageConfig.getOption "baseUrl" (Router.pageConfig app) /\
  PageConfig.getOption "treePath" (Router.pageConfig app')
  = List.last treePaths (PageConfig.getOption "treePath" (Router.pageConfig app)).
Proof.
  intros app'. subst app'.
  destruct (updates_spec treePaths app) as (_ & _ & Hl & Hb & Hr & Ho & Hu).
  repeat split; assumption.
Qed.

(** X14: history and configuration move in lockstep.  Over a sequence of
    calls of the tree path updater, the browser history gains one entry, and
    the page configuration one write of [treePath], for each argument that
    differs from the tree path recorded just before its call, in order, and
    each history entry is the tree URL of the path written with it. *)
Theorem tree_path_history_matches_writes `{Platform}
    (treePaths : list string) (app : Router.App) :
  let recorded := PageConfig.getOption "treePath" (Router.pageConfig app) in
  let changed := TreePathUpdates.changes recorded treePaths in
  let app' := TreePathUpdates.updates treePaths app in
  Router.history app'
  = Router.history app ++
      map (TreePathUpdates.treeUrl (Router.pageConfig app)) changed /\
  Router.configWrites app'
  = Router.configWrites app ++ map (fun p => ("treePath", p)) changed.
Proof.
  intros recorded changed app'. subst recorded changed app'.
  destruct (updates_spec treePaths app) as (Hh & Hw & _).
  split; assumption.
Qed.

Section TopVisibilityFacts.
Import TopVisibility Aux.

Lemma step_override reg ev st :
  settingsOverride st = true ->
  settingsOverride (step reg ev st) = true /\
  shellCalls (step reg ev st) = shellCalls st.
Proof.
  intros O. destruct ev as [|visible user|format]; cbn [step].
  - unfold toggleTop. destruct reg; cbn; split; assumption || reflexivity.
  - destruct reg; [ | split; [exact O | reflexivity]].
    destruct user; cbn; split; assumption || reflexivity.
  - unfold onChanged. rewrite O. split; [exact O | reflexivity].
Qed.

Lemma run_override reg evs st :
  settingsOverride st = true ->
  settingsOverride (run reg evs st) = true /\
  shellCalls (run reg evs st) = shellCalls st.
Proof.
  revert st. induction evs as [|ev evs IH]; intros st O; [split; [exact O | reflexivity] | ].
  unfold run. cbn [foldl]. fold (run reg evs (step reg ev st)).
  destruct (step_override reg ev st O) as [O' C'].
  destruct (IH _ O') as [O'' C'']. split; [exact O'' | congruence].
Qed.

Lemma run_free reg evs st :
  settingsOverride st = false ->
  settingsOverride (run reg evs st) = reg && existsb overrides evs /\
  shellCalls (run reg evs st) = shellCalls st ++ expectedTopCalls reg evs.
Proof.
  revert st. induction evs as [|ev evs IH]; intros st O.
  - cbn. rewrite andb_false_r, app_nil_r. split; [exact O | reflexivity].
  - unfold run. cbn [foldl]. fold (run reg evs (step reg ev st)).
    destruct ev as [|visible [u|]|format]; cbn [step existsb overrides expectedTopCalls orb].
    + destruct (IH (toggleTop reg st)) as [Ho Hc];
        [unfold toggleTop; destruct reg; exact O | ].
      rewrite Ho, Hc. split; [reflexivity | ].
      unfold toggleTop. destruct reg; reflexivity.
    + destruct reg.
      * cbn [andb].
        destruct (run_override true evs (updateSettings visible (Some u) st) eq_refl)
          as [-> ->].
        cbn. rewrite app_nil_r. split; reflexivity.
      * apply IH, O.
    + destruct reg; apply IH, O.
    + destruct (IH (onChanged format st)) as [Ho Hc].
      { unfold onChanged. rewrite O. exact O. }
      rewrite Ho, Hc. split; [reflexivity | ].
      unfold onChanged. rewrite O. unfold shellCall. cbn [shellCalls].
      rewrite <- app_assoc. reflexivity.
Qed.

End TopVisibilityFacts.

(** X15: a user setting wins for good.  The top visibility plugin asks the
    shell to expand or collapse the top area once per format change, until a
    settings load or change carries a user value for [visible] (which needs
    a setting registry); from then on the variable [settingsOverride] stays
    set and no format change reaches the shell any more. *)
Theorem top_override_is_permanent (settingRegistry hidden : bool)
    (evs : list TopVisibility.Event) :
  let st := TopVisibility.run settingRegistry evs (TopVisibility.activate hidden) in
  TopVisibility.settingsOverride st
  = settingRegistry && existsb TopVisibility.overrides evs /\
  TopVisibility.shellCalls st = Aux.expectedTopCalls settingRegistry evs.
Proof.
  intros st. subst st.
  destruct (run_free settingRegistry evs (TopVisibility.activate hidden) eq_refl)
    as [O C].
  split; [exact O | exact C].
Qed.

Section ZenFacts.
Import Zen Aux.

Lemma snoc_not_nil {A} (l : list A) x : l ++ [x] <> [].
Proof. intros E. apply app_eq_nil in E as [_ E]. discriminate. Qed.

Lemma step_zenInv sh ev st : zenInv sh st -> zenInv sh (step sh ev st).
Proof.
  unfold zenInv. intros (I1 & I2). destruct ev as [|element]; cbn [step].
  - unfold toggleZen. destruct (zenModeEnabled st) eqn:Z; cbn [negb];
      unfold toggleOn, toggleOff, call;
      cbn [zenModeEnabled fullscreenCalls shellCalls menuHidden].
    + split; [discriminate | ]. destruct sh; [ | exact I2].
      split; [discriminate | ]. intros _. rewrite last_last. split; reflexivity.
    + split; [intros _; apply last_last | ]. destruct sh; [ | exact I2].
      split; [intros _; apply snoc_not_nil | ].
      intros _. rewrite last_last. split; reflexivity.
  - unfold onFullscreenChange. cbn [fullscreenElement].
    destruct element; cbn [negb].
    + cbn [zenModeEnabled fullscreenCalls shellCalls menuHidden].
      split; [exact I1 | exact I2].
    + unfold toggleOff.
      cbn [zenModeEnabled fullscreenCalls shellCalls menuHidden].
      split; [discriminate | ]. destruct sh; [ | exact I2].
      split; [discriminate | ]. intros _. rewrite last_last. split; reflexivity.
Qed.

Lemma run_zenInv sh evs st : zenInv sh st -> zenInv sh (run sh evs st).
Proof.
  revert st. induction evs as [|ev evs IH]; intros st I; [exact I | ].
  unfold run. cbn [foldl]. apply IH, step_zenInv, I.
Qed.

End ZenFacts.

(** X16: zen mode and the menu go together.  After any sequence of toggle
    commands and fullscreen changes, zen mode is on only if the last
    fullscreen call was a request; with a shell, zen mode on means the menu
    is hidden and the last call on the top area collapsed it, and once the
    plugin has touched the shell the menu is hidden exactly in zen mode;
    without a shell the plugin makes no shell call.  A fullscreen change
    that leaves fullscreen always ends zen mode. *)
Theorem zen_mode_hides_menu (notebookShell menuHidden : bool)
    (evs : list Zen.Event) :
  let st := Zen.run notebookShell evs (Zen.activate menuHidden) in
  (Zen.zenModeEnabled st = true ->
   List.last (Zen.fullscreenCalls st) Zen.exitFullscreen = Zen.requestFullscreen) /\
  (notebookShell = true -> Zen.zenModeEnabled st = true ->
   Zen.menuHidden st = true /\
   List.last (Zen.shellCalls st) Zen.expandTop = Zen.collapseTop) /\
  (notebookShell = true -> Zen.shellCalls st <> [] ->
   Zen.menuHidden st = Zen.zenModeEnabled st) /\
  (notebookShell = false -> Zen.shellCalls st = []) /\
  Zen.zenModeEnabled (Zen.step notebookShell (Zen.FullscreenChange false) st) = false.
Proof.
  intros st.
  assert (I : Aux.zenInv notebookShell st).
  { apply run_zenInv. unfold Aux.zenInv. cbn.
    split; [discriminate | ]. destruct notebookShell; [ | reflexivity].
    split; [discriminate | congruence]. }
  destruct I as (I1 & I2).
  split; [exact I1 | ]. split; [ | split; [ | split]].
  - intros -> Z. destruct I2 as (I2 & I3).
    destruct (I3 (I2 Z)) as [Hm Hl]. rewrite Z in Hm, Hl. split; assumption.
  - intros -> N. destruct I2 as (_ & I3). apply (I3 N).
  - intros ->. exact I2.
  - reflexivity.
Qed.

(** ** The rename command *)

Section RenameFacts.
Import Title Aux.
Context `{Platform} `{PathPlatform}.

Lemma groups_of_match s g c :
  group 1 (exec TREE_PATTERN s) = Some g ->
  group 2 (exec TREE_PATTERN s) = Some c ->
  isRoute g /\ noLineTerminator c = true.
Proof.
  intros G1 G2. pose proof (exec_TREE_PATTERN_spec s) as Sp.
  destruct (exec TREE_PATTERN s) as [r|]; [ | discriminate].
  destruct Sp as (pre & g' & u & _ & R & G & _). cbn [group] in G1, G2.
  rewrite G in G1, G2. unfold captures in *.
  rewrite lookup_insert_ne, lookup_insert_eq in G1 by discriminate.
  rewrite lookup_insert_eq in G2.
  injection G1 as <-. injection G2 as <-.
  split; [exact R | apply takeLine_noLineTerminator].
Qed.

Lemma isRoute_nonempty g : isRoute g -> String.eqb g "" = false.
Proof. intros [-> | ->]; reflexivity. Qed.

End RenameFacts.

(** X17: a rename keeps a document URL a document URL.  When the rename
    command runs to the end on a page whose path matches [TREE_PATTERN]
    with a non-empty captured path, it shows the new base name without a
    trailing [.ipynb] and pushes the URL made of the same route and the
    encoded new path, without routing (resolver and opener are untouched);
    if the encoded path is on one line, that URL matches [TREE_PATTERN]
    again, with the same route and the encoded path as captures. *)
Theorem rename_keeps_document_url `{Platform} `{PathPlatform}
    (newPath text route captured : string) (app : Router.App) :
  group 1 (exec TREE_PATTERN (path (Router.location app))) = Some route ->
  group 2 (exec TREE_PATTERN (path (Router.location app))) = Some captured ->
  captured <> "" ->
  Aux.noLineTerminator (encodeURIComponent newPath) = true ->
  let res := Title.rename_execute true true true newPath text app in
  let url := String "/" (route ++ String "/" (encodeURIComponent newPath)) in
  fst res = DisplayName.strip (basename newPath) /\
  Router.history (snd res) = Router.history app ++ [url] /\
  path (Router.location (snd res)) = url /\
  Router.resolver (snd res) = Router.resolver app /\
  Router.opener (snd res) = Router.opener app /\
  Router.pageConfig (snd res) = Router.pageConfig app /\
  group 1 (exec TREE_PATTERN url) = Some route /\
  group 2 (exec TREE_PATTERN url) = Some (encodeURIComponent newPath).
Proof.
  intros G1 G2 N L res url. subst res url.
  destruct (groups_of_match _ _ _ G1 G2) as [R _].
  unfold Title.rename_execute. cbn [negb]. rewrite G1, G2.
  rewrite (isRoute_nonempty route R).
  apply String.eqb_neq in N. rewrite N. cbn [orb fst snd].
  destruct (exec_TREE_PATTERN_at_route route (encodeURIComponent newPath) R)
    as (r & E & G).
  rewrite E. cbn [group]. rewrite G. unfold captures.
  rewrite lookup_insert_ne, !lookup_insert_eq by discriminate.
  rewrite (takeLine_id _ L). repeat split.
Qed.

(** X17, witness: a notebook renamed to [dir/b c.ipynb]. *)
Lemma rename_keeps_document_url_witness :
  let app :=
    Router.start false
      {| hash := ""; path := "/notebooks/a.ipynb";
         request := "/notebooks/a.ipynb"; search := None |} ∅ None in
  Router.history
    (snd (Title.rename_execute (H := Sample.platform) (H0 := SamplePaths.platform)
            true true true "dir/b c.ipynb" "a" app))
  = ["/notebooks/dir%2Fb%20c.ipynb"].
Proof.
  intros app.
  refine (proj1 (proj2 (rename_keeps_document_url (H := Sample.platform)
                          (H0 := SamplePaths.platform)
                          "dir/b c.ipynb" "a" "notebooks" "a.ipynb" app _ _ _ _))).
  - vm_compute; reflexivity.
  - vm_compute; reflexivity.
  - discriminate.
  - vm_compute; reflexivity.
Defined.


(** X18: when the rename command does not navigate.  If the command is
    disabled or the dialog is dismissed, neither the title nor the
    application changes; if there is no router, or the current path holds no
    document route, or its captured path is empty, the title changes but
    nothing is pushed on the history. *)
Theorem rename_without_navigation `{Platform} `{PathPlatform}
    (enabled result router : bool) (newPath text : string) (app : Router.App) :
  (enabled && result = false ->
   Title.rename_execute enabled result router newPath text app = (text, app)) /\
  (enabled && result = true ->
   fst (Title.rename_execute enabled result router newPath text app)
   = DisplayName.strip (basename newPath)) /\
  (router = false \/
   Aux.holdsDocumentRoute (path (Router.location app)) = false \/
   group 2 (exec TREE_PATTERN (path (Router.location app))) = Some "" ->
   snd (Title.rename_execute enabled result router newPath text app) = app).
Proof.
  unfold Title.rename_execute. split; [ | split].
  - destruct enabled, result; cbn; try reflexivity; discriminate.
  - destruct enabled, result; cbn [andb negb]; try discriminate. intros _.
    destruct router; cbn [negb]; [ | reflexivity].
    destruct (group 1 _) as [g|]; [ | reflexivity].
    destruct (group 2 _) as [c|]; [ | reflexivity].
    destruct (_ || _); reflexivity.
  - intros C. destruct enabled; cbn [negb]; [ | reflexivity].
    destruct result; cbn [negb]; [ | reflexivity].
    destruct router; cbn [negb]; [ | reflexivity].
    destruct C as [C|[C|C]]; [discriminate | | ].
    + pose proof (exec_TREE_PATTERN_spec (path (Router.location app))) as Sp.
      destruct (exec TREE_PATTERN (path (Router.location app))) as [r|];
        [ | reflexivity].
      destruct Sp as (? & ? & ? & _ & _ & _ & _ & Hh). congruence.
    + rewrite C. destruct (group 1 _) as [g|]; [ | reflexivity].
      cbn [String.eqb]. rewrite orb_true_r. reflexivity.
Qed.

(** X19: a renamed document opens again from its new URL.  After a rename
    that navigated, the opener command executed on the new location asks
    the document manager for the new path, provided the encoded path is
    non-empty, on one line, and decodes to the new path: with the editor
    factory when the extension of the new path is not [.ipynb], and with
    the notebook factory when it is, unless there is a setting registry
    whose load of the notebook panel's settings does not fulfil, in which
    case nothing is opened. *)
Theorem renamed_url_reopens_document `{Platform} `{PathPlatform}
    (newPath text route captured : string) (app : Router.App)
    (w : Opener.World) :
  group 1 (exec TREE_PATTERN (path (Router.location app))) = Some route ->
  group 2 (exec TREE_PATTERN (path (Router.location app))) = Some captured ->
  captured <> "" ->
  encodeURIComponent newPath <> "" ->
  Aux.noLineTerminator (encodeURIComponent newPath) = true ->
  decodeURIComponent (encodeURIComponent newPath) = Some newPath ->
  let app' := snd (Title.rename_execute true true true newPath text app) in
  Opener.opened (fst (Opener.execute (Router.location app') w))
  = Opener.opened w ++
      (if String.eqb (extname newPath) ".ipynb"
       then match Opener.settingRegistry w with
            | None | Some (Fulfilled _) => [(newPath, Opener.NOTEBOOK_FACTORY)]
            | Some _ => []
            end
       else [(newPath, Opener.EDITOR_FACTORY)]).
Proof.
  intros G1 G2 N Ne L D app'. subst app'.
  destruct (groups_of_match _ _ _ G1 G2) as [R _].
  unfold Title.rename_execute. cbn [negb]. rewrite G1, G2.
  rewrite (isRoute_nonempty route R).
  apply String.eqb_neq in N. rewrite N. cbn [orb snd].
  unfold Router.navigate. cbn [Router.location].
  apply (opener_execute_at_route_any route (encodeURIComponent newPath) newPath
           "" _ None w R Ne L D).
Qed.

(** X19, witness: the notebook renamed to [dir/b c.ipynb] opens from
    [/notebooks/dir%2Fb%20c.ipynb] when the settings load fulfils. *)
Lemma renamed_url_reopens_document_witness :
  let app :=
    Router.start false
      {| hash := ""; path := "/notebooks/a.ipynb";
         request := "/notebooks/a.ipynb"; search := None |} ∅ None in
  let w := {| Opener.settingRegistry := Some (Fulfilled tt);
              Opener.loaded := []; Opener.opened := [] |} in
  Opener.opened
    (fst (Opener.execute (H := Sample.platform)
            (Router.location
               (snd (Title.rename_execute (H := Sample.platform)
                       (H0 := SamplePaths.platform)
                       true true true "dir/b c.ipynb" "a" app)))
            w))
  = [("dir/b c.ipynb", Opener.NOTEBOOK_FACTORY)].
Proof.
  intros app w.
  refine (renamed_url_reopens_document (H := Sample.platform)
            (H0 := SamplePaths.platform)
            "dir/b c.ipynb" "a" "notebooks" "a.ipynb" app w _ _ _ _ _ _).
  - vm_compute; reflexivity.
  - vm_compute; reflexivity.
  - discriminate.
  - vm_compute; discriminate.
  - vm_compute; reflexivity.
  - vm_compute; reflexivity.
Defined.
